(** * TSMF media container and FFmpeg decoder: a shallow embedding

    Source files:
      channels/drdynvc/tsmf/tsmf_media.c          (presentation, stream, sample)
      channels/drdynvc/tsmf/ffmpeg/tsmf_ffmpeg.c  (the FFmpeg decoder)

    Conventions of the embedding.
    - C integers are [Z]; unsigned 32-bit arithmetic that can overflow is
      written with [wrap32].
    - A [uint8 *] that may be NULL is an [option (list byte)]: [None] is NULL.
      An input buffer passed as (pointer, size) is a [list byte], its size is
      the length of the list.
    - The intrusive linked lists (presentations, streams, samples) are lists
      in link order: the head pointer is the first element, the tail pointer
      the last one.  A pointer to a stream of a presentation is its position
      in [stream_list].
    - Back pointers ([sample->stream], [stream->presentation]) are passed as
      arguments to the functions that follow them.
    - Each function is a function from the state before the call to the
      result and the state after it; the presentation mutex makes the calls
      on one presentation run one after the other.
    - [malloc] and [realloc] return a block.  Where tsmf_ffmpeg.c chooses the
      libavcodec call by version, the calls of the [#else] branches
      ([avcodec_decode_video2], [avcodec_decode_audio3]) are taken.
    - A loop without a bound of its own takes the number of turns that are
      followed as [fuel], and gives [None] when they do not reach its end. *)

From stdpp Require Import base list.
From Stdlib Require Import ZArith Lia Strings.Byte Sorting.Sorted.
From Equations Require Import Equations.
From Equations.Prop Require Import Logic.

Local Open Scope Z_scope.

(** ** Integer types *)

Definition wrap32 (x : Z) : Z := x mod 2 ^ 32.

(** Reading an [uint32] as an [int] (two's complement). *)
Definition to_int32 (x : Z) : Z :=
  if wrap32 x <? 2 ^ 31 then wrap32 x else wrap32 x - 2 ^ 32.

(** ** Interfaces *)

(** [ITSMFAudioDevice] (tsmf_audio.h): the operations of the audio sink that
    tsmf_media.c calls, over the sink's own state [A]. *)
Class ITSMFAudioDevice (A : Type) := {
  GetQueueLength : A -> Z;
  Play : A -> list byte -> Z -> A;
  Flush : A -> A
}.

(** [ITSMFDecoder] (tsmf_decoder.h): the function pointers of a decoder over
    its state [D].  [Decode] returns 0 on success.  [GetDecodedData] may be a
    NULL pointer; it returns the buffer and writes its size. *)
Record ITSMFDecoder (D : Type) := {
  Decode : D -> list byte -> Z -> Z * D;
  GetDecodedData : option (D -> (option (list byte) * Z) * D)
}.
Arguments Decode {D} _ _ _ _.
Arguments GetDecodedData {D} _.

(** A decoder object: the interface followed by the private fields. *)
Record decoder_obj (D : Type) := {
  iface : ITSMFDecoder D;
  mdecoder : D
}.
Arguments iface {D} _.
Arguments mdecoder {D} _.
Arguments Build_decoder_obj {D} _ _.

(** ** Data model (tsmf_media.c) *)

Definition IWTSVirtualChannelCallback := Z.

Record TSMF_SAMPLE := {
  sample_id : Z;
  start_time : Z;
  end_time : Z;
  duration : Z;
  data_size : Z;
  data : option (list byte);
  sample_channel_callback : IWTSVirtualChannelCallback
}.

Record TSMF_STREAM (D : Type) := {
  stream_id : Z;
  decoder : option (decoder_obj D);
  major_type : Z;
  stream_eos : Z;
  width : Z;
  height : Z;
  sample_queue : list TSMF_SAMPLE
}.
Arguments stream_id {D} _.
Arguments decoder {D} _.
Arguments major_type {D} _.
Arguments stream_eos {D} _.
Arguments width {D} _.
Arguments height {D} _.
Arguments sample_queue {D} _.
Arguments Build_TSMF_STREAM {D} _ _ _ _ _ _ _.

Record TSMF_PRESENTATION (A D : Type) := {
  presentation_id : list byte;
  thread_status : Z;
  thread_exit : Z;
  playback_time : Z;
  audio : option A;
  sample_rate : Z;
  channels : Z;
  bits_per_sample : Z;
  eos : Z;
  last_x : Z;
  last_y : Z;
  last_width : Z;
  last_height : Z;
  output_x : Z;
  output_y : Z;
  output_width : Z;
  output_height : Z;
  channel_callback : IWTSVirtualChannelCallback;
  stream_list : list (TSMF_STREAM D)
}.
Arguments presentation_id {A D} _.
Arguments thread_status {A D} _.
Arguments thread_exit {A D} _.
Arguments playback_time {A D} _.
Arguments audio {A D} _.
Arguments sample_rate {A D} _.
Arguments channels {A D} _.
Arguments bits_per_sample {A D} _.
Arguments eos {A D} _.
Arguments last_x {A D} _.
Arguments last_y {A D} _.
Arguments last_width {A D} _.
Arguments last_height {A D} _.
Arguments output_x {A D} _.
Arguments output_y {A D} _.
Arguments output_width {A D} _.
Arguments output_height {A D} _.
Arguments channel_callback {A D} _.
Arguments stream_list {A D} _.
Arguments Build_TSMF_PRESENTATION {A D} _ _ _ _ _ _ _ _ _ _ _ _ _ _ _ _ _ _ _.

(** Field assignments. *)

Definition set_sample_queue {D} (s : TSMF_STREAM D) (q : list TSMF_SAMPLE)
  : TSMF_STREAM D :=
  Build_TSMF_STREAM (stream_id s) (decoder s) (major_type s) (stream_eos s)
    (width s) (height s) q.

Definition set_stream_eos {D} (s : TSMF_STREAM D) (e : Z) : TSMF_STREAM D :=
  Build_TSMF_STREAM (stream_id s) (decoder s) (major_type s) e
    (width s) (height s) (sample_queue s).

Definition set_decoder {D} (s : TSMF_STREAM D) (d : option (decoder_obj D))
  : TSMF_STREAM D :=
  Build_TSMF_STREAM (stream_id s) d (major_type s) (stream_eos s)
    (width s) (height s) (sample_queue s).

Definition set_data (x : TSMF_SAMPLE) (d : option (list byte)) (n : Z)
  : TSMF_SAMPLE :=
  Build_TSMF_SAMPLE (sample_id x) (start_time x) (end_time x) (duration x)
    n d (sample_channel_callback x).

Definition set_stream_list {A D} (p : TSMF_PRESENTATION A D)
    (l : list (TSMF_STREAM D)) : TSMF_PRESENTATION A D :=
  Build_TSMF_PRESENTATION (presentation_id p) (thread_status p) (thread_exit p)
    (playback_time p) (audio p) (sample_rate p) (channels p)
    (bits_per_sample p) (eos p) (last_x p) (last_y p) (last_width p)
    (last_height p) (output_x p) (output_y p) (output_width p)
    (output_height p) (channel_callback p) l.

Definition set_playback_time {A D} (p : TSMF_PRESENTATION A D) (t : Z)
  : TSMF_PRESENTATION A D :=
  Build_TSMF_PRESENTATION (presentation_id p) (thread_status p) (thread_exit p)
    t (audio p) (sample_rate p) (channels p)
    (bits_per_sample p) (eos p) (last_x p) (last_y p) (last_width p)
    (last_height p) (output_x p) (output_y p) (output_width p)
    (output_height p) (channel_callback p) (stream_list p).

Definition set_audio {A D} (p : TSMF_PRESENTATION A D) (a : option A)
  : TSMF_PRESENTATION A D :=
  Build_TSMF_PRESENTATION (presentation_id p) (thread_status p) (thread_exit p)
    (playback_time p) a (sample_rate p) (channels p)
    (bits_per_sample p) (eos p) (last_x p) (last_y p) (last_width p)
    (last_height p) (output_x p) (output_y p) (output_width p)
    (output_height p) (channel_callback p) (stream_list p).

Definition set_eos {A D} (p : TSMF_PRESENTATION A D) (e : Z)
  : TSMF_PRESENTATION A D :=
  Build_TSMF_PRESENTATION (presentation_id p) (thread_status p) (thread_exit p)
    (playback_time p) (audio p) (sample_rate p) (channels p)
    (bits_per_sample p) e (last_x p) (last_y p) (last_width p)
    (last_height p) (output_x p) (output_y p) (output_width p)
    (output_height p) (channel_callback p) (stream_list p).

Definition set_last {A D} (p : TSMF_PRESENTATION A D) (x y w h : Z)
  : TSMF_PRESENTATION A D :=
  Build_TSMF_PRESENTATION (presentation_id p) (thread_status p) (thread_exit p)
    (playback_time p) (audio p) (sample_rate p) (channels p)
    (bits_per_sample p) (eos p) x y w h (output_x p) (output_y p)
    (output_width p) (output_height p) (channel_callback p) (stream_list p).

Definition set_output {A D} (p : TSMF_PRESENTATION A D) (x y w h : Z)
  : TSMF_PRESENTATION A D :=
  Build_TSMF_PRESENTATION (presentation_id p) (thread_status p) (thread_exit p)
    (playback_time p) (audio p) (sample_rate p) (channels p)
    (bits_per_sample p) (eos p) (last_x p) (last_y p) (last_width p)
    (last_height p) x y w h (channel_callback p) (stream_list p).

(** ** Constants and external functions *)

(** Constants of tsmf_constants.h and freerdp/constants_ui.h that the two
    source files use. *)
Class TSMFConstants := {
  GUID_SIZE : nat;
  TSMF_MAJOR_TYPE_VIDEO : Z;
  TSMF_MAJOR_TYPE_AUDIO : Z;
  RD_PIXFMT_I420 : Z
}.

(** Events handed to the channel (freerdp/types_ui.h). *)
Inductive RD_EVENT :=
| RD_REDRAW_EVENT (x y width height : Z)
| RD_VIDEO_FRAME_EVENT (frame_data : option (list byte))
    (frame_size frame_pixfmt frame_width frame_height x y width height : Z).

(** [tsmf_push_event] and [tsmf_playback_ack] live in tsmf_main.c.  What the
    media container observes of [tsmf_push_event] is its return value, 0 when
    the event was accepted. *)
Class TSMFMain := {
  tsmf_push_event : IWTSVirtualChannelCallback -> RD_EVENT -> Z
}.

(** What an operation does to the outside, in program order. *)
Inductive effect :=
| EvPush (cb : IWTSVirtualChannelCallback) (e : RD_EVENT)
| EvFree (e : RD_EVENT)
| EvAck (cb : IWTSVirtualChannelCallback) (sample_id duration data_size : Z).

(** ** Operations of tsmf_media.c *)

Section Media.
Context {A D : Type} `{!ITSMFAudioDevice A} `{!TSMFConstants} `{!TSMFMain}.

Abbreviation stream := (TSMF_STREAM D).
Abbreviation presentation := (TSMF_PRESENTATION A D).

Definition tsmf_stream_pop_sample (s : stream) : option TSMF_SAMPLE * stream :=
  match sample_queue s with
  | [] => (None, s)
  | sample :: next => (Some sample, set_sample_queue s next)
  end.

Definition tsmf_sample_ack (sample : TSMF_SAMPLE) : list effect :=
  [EvAck (sample_channel_callback sample) (sample_id sample)
     (duration sample) (data_size sample)].

(** [earliest_stream->sample_queue_head->start_time]; the scan only keeps
    streams whose queue head is not NULL. *)
Definition head_start_time (s : stream) : Z :=
  match sample_queue s with
  | sample :: _ => start_time sample
  | [] => 0
  end.

(** The [for] loop of [tsmf_presentation_pop_sample]: [i] is the position of
    the stream under the cursor. *)
Fixpoint scan_streams (l : list stream) (i : nat) (has_pending_stream : Z)
    (earliest_stream : option (nat * stream)) : Z * option (nat * stream) :=
  match l with
  | [] => (has_pending_stream, earliest_stream)
  | s :: next =>
      let has_pending_stream :=
        match sample_queue s with
        | [] => if stream_eos s =? 0 then 1 else has_pending_stream
        | _ :: _ => has_pending_stream
        end in
      let earliest_stream :=
        match sample_queue s with
        | [] => earliest_stream
        | sample :: _ =>
            match earliest_stream with
            | None => Some (i, s)
            | Some (_, e) =>
                if head_start_time e >? start_time sample
                then Some (i, s) else earliest_stream
            end
        end in
      scan_streams next (S i) has_pending_stream earliest_stream
  end.

(** [sample = tsmf_stream_pop_sample(earliest_stream)] on the stream at
    position [i]. *)
Definition pop_from (p : presentation) (i : nat) (s : stream)
  : option TSMF_SAMPLE * presentation :=
  let '(sample, s') := tsmf_stream_pop_sample s in
  (sample, set_stream_list p (<[i := s']> (stream_list p))).

Definition tsmf_presentation_pop_sample (p : presentation)
  : option TSMF_SAMPLE * presentation :=
  let '(has_pending_stream, earliest_stream) :=
    scan_streams (stream_list p) 0 0 None in
  let '(sample, p) :=
    match earliest_stream with
    | Some (i, e) =>
        if major_type e =? TSMF_MAJOR_TYPE_AUDIO then
          if match audio p with
             | None => true
             | Some a => GetQueueLength a <? 10
             end
          then pop_from p i e
          else (None, p)
        else if (has_pending_stream =? 0) || (playback_time p =? 0)
                || (playback_time p >=? head_start_time e)
        then pop_from p i e
        else (None, p)
    | None => (None, p)
    end in
  match sample with
  | Some x =>
      if end_time x >? playback_time p
      then (sample, set_playback_time p (end_time x))
      else (sample, p)
  | None => (None, p)
  end.

(** [memcmp(a, b, n) == 0]. *)
Fixpoint mem_equal (a b : list byte) (n : nat) : bool :=
  match n with
  | O => true
  | S n' =>
      match a, b with
      | x :: a', y :: b' => Byte.eqb x y && mem_equal a' b' n'
      | [], [] => true
      | _, _ => false
      end
  end.

(** The registry is the global list [presentation_list_head] ..
    [presentation_list_tail]. *)
Fixpoint find_presentation_from (l : list presentation) (i : nat)
    (guid : list byte) : option nat :=
  match l with
  | [] => None
  | p :: next =>
      if mem_equal (presentation_id p) guid GUID_SIZE then Some i
      else find_presentation_from next (S i) guid
  end.

Definition tsmf_presentation_find_by_id (registry : list presentation)
    (guid : list byte) : option nat :=
  find_presentation_from registry 0%nat guid.

(** [malloc] followed by [memset 0], then the id and the callback. *)
Definition presentation_init (guid : list byte)
    (pChannelCallback : IWTSVirtualChannelCallback) : presentation :=
  Build_TSMF_PRESENTATION (take GUID_SIZE guid) 0 0 0 None 0 0 0 0
    0 0 0 0 0 0 0 0 pChannelCallback [].

(** Returns the new presentation (its position in the registry) or NULL,
    and the registry afterwards. *)
Definition tsmf_presentation_new (registry : list presentation)
    (guid : list byte) (pChannelCallback : IWTSVirtualChannelCallback)
  : option nat * list presentation :=
  match tsmf_presentation_find_by_id registry guid with
  | Some _ => (None, registry)
  | None =>
      (Some (length registry),
       registry ++ [presentation_init guid pChannelCallback])
  end.

Fixpoint find_stream_from (l : list stream) (i : nat) (id : Z) : option nat :=
  match l with
  | [] => None
  | s :: next =>
      if stream_id s =? id then Some i else find_stream_from next (S i) id
  end.

Definition tsmf_stream_find_by_id (p : presentation) (id : Z) : option nat :=
  find_stream_from (stream_list p) 0%nat id.

Definition stream_init (id : Z) : stream :=
  Build_TSMF_STREAM id None 0 0 0 0 [].

Definition tsmf_stream_new (p : presentation) (id : Z)
  : option nat * presentation :=
  match tsmf_stream_find_by_id p id with
  | Some _ => (None, p)
  | None =>
      (Some (length (stream_list p)),
       set_stream_list p (stream_list p ++ [stream_init id]))
  end.

(** [tsmf_stream_end(stream)] for the stream at position [i]. *)
Definition tsmf_stream_end (p : presentation) (i : nat) : presentation :=
  match stream_list p !! i with
  | Some s =>
      set_eos (set_stream_list p (<[i := set_stream_eos s 1]> (stream_list p))) 1
  | None => p
  end.

(** The [while] loop of [tsmf_stream_flush]. *)
Equations? flush_samples (s : stream) : stream
  by wf (length (sample_queue s)) lt :=
  flush_samples s with inspect (sample_queue s) := {
    | @exist [] _ => s
    | @exist (_ :: _) _ => flush_samples (snd (tsmf_stream_pop_sample s)) }.
Proof.
  unfold tsmf_stream_pop_sample.
  destruct (sample_queue s); simpl in *; [discriminate | lia].
Qed.

Definition tsmf_stream_flush (s : stream) : stream :=
  set_stream_eos (flush_samples s) 0.

Definition tsmf_presentation_flush (p : presentation) : presentation :=
  let p := set_stream_list p (map tsmf_stream_flush (stream_list p)) in
  let p := match audio p with
           | Some a => set_audio p (Some (Flush a))
           | None => p
           end in
  set_eos p 0.

Definition tsmf_presentation_set_geometry_info (p : presentation)
    (x y width height : Z) : presentation :=
  set_output p x y width height.

(** [tsmf_stream_push_sample] on a stream; [data_size] is the length of
    [data]. *)
Definition tsmf_stream_push_sample (s : stream)
    (pChannelCallback : IWTSVirtualChannelCallback)
    (sample_id start_time end_time duration extensions : Z)
    (data : list byte) : stream :=
  match decoder s with
  | None => s
  | Some d =>
      let '(ret, m) := Decode (iface d) (mdecoder d) data extensions in
      if negb (ret =? 0) then set_decoder s (Some (Build_decoder_obj (iface d) m))
      else
        let '((buf, size), m) :=
          match GetDecodedData (iface d) with
          | Some get => get m
          | None => ((None, 0), m)
          end in
        let sample :=
          Build_TSMF_SAMPLE sample_id start_time end_time duration size buf
            pChannelCallback in
        set_sample_queue (set_decoder s (Some (Build_decoder_obj (iface d) m)))
          (sample_queue s ++ [sample])
  end.

(** The same call through a stream pointer of presentation [p]. *)
Definition push_sample_at (p : presentation) (i : nat)
    (pChannelCallback : IWTSVirtualChannelCallback)
    (sample_id start_time end_time duration extensions : Z)
    (data : list byte) : presentation :=
  match stream_list p !! i with
  | Some s =>
      set_stream_list p
        (<[i := tsmf_stream_push_sample s pChannelCallback sample_id
                  start_time end_time duration extensions data]>
           (stream_list p))
  | None => p
  end.

Definition tsmf_presentation_restore_last_video_frame (p : presentation)
  : presentation * list effect :=
  if negb (last_width p =? 0) && negb (last_height p =? 0) then
    let revent :=
      RD_REDRAW_EVENT (last_x p) (last_y p) (last_width p) (last_height p) in
    let pushed := [EvPush (channel_callback p) revent] in
    let freed :=
      if negb (tsmf_push_event (channel_callback p) revent =? 0)
      then [EvFree revent] else [] in
    (set_last p 0 0 0 0, pushed ++ freed)
  else (p, []).

(** [tsmf_sample_playback_video(sample)]: [s] is [sample->stream] and [p]
    is [sample->stream->presentation]. *)
Definition tsmf_sample_playback_video (p : presentation) (s : stream)
    (sample : TSMF_SAMPLE) : presentation * TSMF_SAMPLE * list effect :=
  match data sample with
  | Some _ =>
      let '(p, restored) :=
        if negb (last_x p =? output_x p) || negb (last_y p =? output_y p)
           || negb (last_width p =? output_width p)
           || negb (last_height p =? output_height p)
        then tsmf_presentation_restore_last_video_frame p
        else (p, []) in
      let vevent :=
        RD_VIDEO_FRAME_EVENT (data sample) (data_size sample) RD_PIXFMT_I420
          (width s) (height s)
          (output_x p) (output_y p) (output_width p) (output_height p) in
      let p :=
        set_last p (output_x p) (output_y p) (output_width p)
          (output_height p) in
      let sample := set_data sample None 0 in
      let freed :=
        if negb (tsmf_push_event (sample_channel_callback sample) vevent =? 0)
        then [EvFree vevent] else [] in
      (p, sample,
       restored ++ [EvPush (sample_channel_callback sample) vevent] ++ freed)
  | None => (p, sample, [])
  end.

Definition tsmf_sample_playback_audio (p : presentation)
    (sample : TSMF_SAMPLE) : presentation * TSMF_SAMPLE :=
  match audio p, data sample with
  | Some a, Some buf =>
      (set_audio p (Some (Play a buf (data_size sample))),
       set_data sample None 0)
  | _, _ => (p, sample)
  end.

(** [tsmf_sample_playback(sample)]: dispatch on the major type of the
    sample's stream, then the acknowledgment; the sample is freed. *)
Definition tsmf_sample_playback (p : presentation) (s : stream)
    (sample : TSMF_SAMPLE) : presentation * list effect :=
  let '(p, sample, effects) :=
    if major_type s =? TSMF_MAJOR_TYPE_VIDEO then
      tsmf_sample_playback_video p s sample
    else if major_type s =? TSMF_MAJOR_TYPE_AUDIO then
      let '(p, sample) := tsmf_sample_playback_audio p sample in
      (p, sample, [])
    else (p, sample, []) in
  (p, effects ++ tsmf_sample_ack sample).

End Media.

(** ** The FFmpeg decoder (tsmf_ffmpeg.c) *)

(** libavcodec as tsmf_ffmpeg.c uses it.  [C] is the state behind
    [mdecoder->codec_context] and [mdecoder->frame].
    - [avcodec_decode_video2 c data flags] returns [len] and [decoded]
      ([got_picture]);
    - [avpicture_get_size c] is the byte size of a picture of the context's
      format and dimensions;
    - [av_picture_copy c size] is the content of the destination buffer after
      [avpicture_fill] and [av_picture_copy];
    - [avcodec_decode_audio3 c frame_size data size] returns [len], the new
      [frame_size] and the bytes written at [dst]. *)
Class AVCodec (C : Type) := {
  AVCODEC_MAX_AUDIO_FRAME_SIZE : Z;
  FF_INPUT_BUFFER_PADDING_SIZE : nat;
  TSMM_SAMPLE_EXT_CLEANPOINT : Z;
  AV_PKT_FLAG_KEY : Z;
  avcodec_decode_video2 : C -> list byte -> Z -> (Z * Z) * C;
  avpicture_get_size : C -> Z;
  av_picture_copy : C -> Z -> list byte;
  avcodec_decode_audio3 : C -> Z -> list byte -> Z -> (Z * Z * list byte) * C
}.

Definition AVMEDIA_TYPE_VIDEO : Z := 0.
Definition AVMEDIA_TYPE_AUDIO : Z := 1.

(** The private fields of [TSMFFFmpegDecoder] that decoding reads or writes. *)
Record TSMFFFmpegDecoder (C : Type) := {
  media_type : Z;
  codec_context : C;
  prepared : Z;
  decoded_data : option (list byte);
  decoded_size : Z;
  decoded_size_max : Z
}.
Arguments media_type {C} _.
Arguments codec_context {C} _.
Arguments prepared {C} _.
Arguments decoded_data {C} _.
Arguments decoded_size {C} _.
Arguments decoded_size_max {C} _.
Arguments Build_TSMFFFmpegDecoder {C} _ _ _ _ _ _.

Definition set_codec_context {C} (m : TSMFFFmpegDecoder C) (c : C)
  : TSMFFFmpegDecoder C :=
  Build_TSMFFFmpegDecoder (media_type m) c (prepared m) (decoded_data m)
    (decoded_size m) (decoded_size_max m).

Definition set_decoded {C} (m : TSMFFFmpegDecoder C)
    (buf : option (list byte)) (size : Z) : TSMFFFmpegDecoder C :=
  Build_TSMFFFmpegDecoder (media_type m) (codec_context m) (prepared m) buf
    size (decoded_size_max m).

Definition set_decoded_size_max {C} (m : TSMFFFmpegDecoder C) (n : Z)
  : TSMFFFmpegDecoder C :=
  Build_TSMFFFmpegDecoder (media_type m) (codec_context m) (prepared m)
    (decoded_data m) (decoded_size m) n.

(** The bytes of a buffer; [malloc] and [realloc] return a non-NULL block. *)
Definition buffer_bytes (buf : option (list byte)) : list byte :=
  match buf with Some l => l | None => [] end.

Section FFmpeg.
Context {C : Type} `{!AVCodec C}.

Abbreviation ffmpeg := (TSMFFFmpegDecoder C).

Definition tsmf_ffmpeg_decode_video (m : ffmpeg) (data : list byte)
    (extensions : Z) : Z * ffmpeg :=
  let flags :=
    if negb (Z.land extensions TSMM_SAMPLE_EXT_CLEANPOINT =? 0)
    then Z.lor 0 AV_PKT_FLAG_KEY else 0 in
  let '((len, decoded), c) :=
    avcodec_decode_video2 (codec_context m) data flags in
  let m := set_codec_context m c in
  if len <? 0 then (1, m)
  else if decoded =? 0 then (1, m)
  else
    let size := wrap32 (avpicture_get_size c) in
    (0, set_decoded m (Some (av_picture_copy c size)) size).

(** "Ensure enough space for decoding". *)
Definition ensure_space (m : ffmpeg) : ffmpeg :=
  if wrap32 (decoded_size_max m - decoded_size m) <? AVCODEC_MAX_AUDIO_FRAME_SIZE
  then set_decoded_size_max m (wrap32 (decoded_size_max m * 2))
  else m.

(** The [while (src_size > 0)] loop of [tsmf_ffmpeg_decode_audio].  [offset]
    is [src - pad_data]: the codec reads [pad_data] from there on, and
    nothing when [src] is behind its end.  [src_size] is the [uint32]
    counter, which the codec receives as an [int]; [src_size -= len] wraps
    around when the codec reports more bytes than it was offered, and the
    loop goes on.  The loop has no bound of its own: [fuel] is the number of
    turns that are followed, and the result is [None] when they do not reach
    the end of the loop. *)
Fixpoint decode_audio_loop (fuel : nat) (m : ffmpeg) (pad_data : list byte)
    (offset src_size : Z) : option ffmpeg :=
  if src_size >? 0 then
    match fuel with
    | O => None
    | S fuel =>
        let m := ensure_space m in
        let '((len, frame_size, pcm), c) :=
          avcodec_decode_audio3 (codec_context m)
            (to_int32 (decoded_size_max m - decoded_size m))
            (drop (Z.to_nat offset) pad_data) (to_int32 src_size) in
        let m := set_codec_context m c in
        if (len <=? 0) || (frame_size <=? 0) then Some m
        else
          decode_audio_loop fuel
            (set_decoded m (Some (buffer_bytes (decoded_data m) ++ pcm))
               (wrap32 (decoded_size m + frame_size)))
            pad_data (offset + len) (wrap32 (src_size - len))
    end
  else Some m.

(** The output buffer as [tsmf_ffmpeg_decode_audio] allocates it before the
    loop. *)
Definition audio_buffer_init (m : ffmpeg) : ffmpeg :=
  let m :=
    if decoded_size_max m =? 0
    then set_decoded_size_max m AVCODEC_MAX_AUDIO_FRAME_SIZE else m in
  set_decoded m (Some []) (decoded_size m).

Definition tsmf_ffmpeg_decode_audio (fuel : nat) (m : ffmpeg)
    (data : list byte) (extensions : Z) : option (Z * ffmpeg) :=
  let m := audio_buffer_init m in
  match
    decode_audio_loop fuel m (data ++ repeat x00 FF_INPUT_BUFFER_PADDING_SIZE)
      0 (Z.of_nat (length data))
  with
  | Some m =>
      let m :=
        if decoded_size m =? 0 then set_decoded m None (decoded_size m)
        else m in
      Some (0, m)
  | None => None
  end.

(** [tsmf_ffmpeg_decode], with the number of turns of the audio loop that are
    followed. *)
Definition tsmf_ffmpeg_decode_within (fuel : nat) (m : ffmpeg)
    (data : list byte) (extensions : Z) : option (Z * ffmpeg) :=
  let m := set_decoded m None 0 in
  if media_type m =? AVMEDIA_TYPE_VIDEO then
    Some (tsmf_ffmpeg_decode_video m data extensions)
  else if media_type m =? AVMEDIA_TYPE_AUDIO then
    tsmf_ffmpeg_decode_audio fuel m data extensions
  else Some (1, m).

(** What libavcodec documents of [avcodec_decode_audio3]: a positive result
    is the number of bytes used of the [pkt.size] that were offered. *)
Definition consumes_what_is_offered : Prop :=
  forall (c : C) (frame_size : Z) (data : list byte) (size : Z),
    0 < (avcodec_decode_audio3 c frame_size data size).1.1.1 ->
    (avcodec_decode_audio3 c frame_size data size).1.1.1 <= size.

(** [Decode] as the function pointer of the decoder object.  The audio loop is
    followed for one turn more than the unit has bytes; with a codec that
    [consumes_what_is_offered] that is the whole loop.  With another codec
    the loop can be longer, or endless: such a call is followed no further,
    and the decoder is left empty. *)
Definition tsmf_ffmpeg_decode (m : ffmpeg) (data : list byte)
    (extensions : Z) : Z * ffmpeg :=
  match tsmf_ffmpeg_decode_within (S (length data)) m data extensions with
  | Some r => r
  | None => (0, set_decoded m None 0)
  end.

Definition tsmf_ffmpeg_get_decoded_data (m : ffmpeg)
  : (option (list byte) * Z) * ffmpeg :=
  ((decoded_data m, decoded_size m), set_decoded m None 0).

(** The function pointers that [TSMFDecoderEntry] installs. *)
Definition tsmf_ffmpeg_iface : ITSMFDecoder ffmpeg :=
  {| Decode := tsmf_ffmpeg_decode;
     GetDecodedData := Some tsmf_ffmpeg_get_decoded_data |}.

Definition ffmpeg_decoder (m : ffmpeg) : decoder_obj ffmpeg :=
  Build_decoder_obj tsmf_ffmpeg_iface m.

End FFmpeg.

(** ** Notions of the specification *)

Section Notions.
Context {A D : Type} `{!ITSMFAudioDevice A} `{!TSMFConstants} `{!TSMFMain}.

Abbreviation stream := (TSMF_STREAM D).
Abbreviation presentation := (TSMF_PRESENTATION A D).

(** A stream is pending when its queue is empty and it has not reached
    end-of-stream. *)
Definition stream_pending (s : stream) : Prop :=
  sample_queue s = [] /\ stream_eos s = 0.

Definition has_pending (l : list stream) : Prop :=
  exists s, s ∈ l /\ stream_pending s.

(** The earliest stream: among the streams with a non-empty queue, the one
    whose head sample [x] has the smallest [start_time], the first in scan
    order among equals. *)
Definition earliest (l : list stream) (i : nat) (s : stream) (x : TSMF_SAMPLE)
  : Prop :=
  l !! i = Some s /\ head (sample_queue s) = Some x /\
  forall (j : nat) (t : stream) (y : TSMF_SAMPLE),
    l !! j = Some t -> head (sample_queue t) = Some y ->
    start_time x <= start_time y /\ ((j < i)%nat -> start_time x < start_time y).

(** What the scan of [tsmf_presentation_pop_sample] knows after the streams
    [l] were visited. *)
Definition scanned (l : list (TSMF_STREAM D)) (has_pending_stream : Z)
    (earliest_stream : option (nat * TSMF_STREAM D)) : Prop :=
  (has_pending_stream = 0 \/ has_pending_stream = 1) /\
  (has_pending_stream = 1 <-> has_pending l) /\
  match earliest_stream with
  | Some (i, s) => exists x, earliest l i s x
  | None => forall j t, l !! j = Some t -> sample_queue t = []
  end.

(** The presentation after the head sample [x] of the stream [s] at position
    [i] was popped and played. *)
Definition after_pop (p : presentation) (i : nat) (s : stream)
    (x : TSMF_SAMPLE) : presentation :=
  set_playback_time
    (set_stream_list p
       (<[i := set_sample_queue s (tail (sample_queue s))]> (stream_list p)))
    (Z.max (playback_time p) (end_time x)).

(** Two regions differ in at least one coordinate. *)
Definition region_differs (p : presentation) : Prop :=
  last_x p <> output_x p \/ last_y p <> output_y p \/
  last_width p <> output_width p \/ last_height p <> output_height p.

(** The arguments of one [tsmf_stream_push_sample] call. *)
Record push_args := {
  pa_callback : IWTSVirtualChannelCallback;
  pa_sample_id : Z;
  pa_start_time : Z;
  pa_end_time : Z;
  pa_duration : Z;
  pa_extensions : Z;
  pa_data : list byte
}.

Definition push (s : stream) (a : push_args) : stream :=
  tsmf_stream_push_sample s (pa_callback a) (pa_sample_id a) (pa_start_time a)
    (pa_end_time a) (pa_duration a) (pa_extensions a) (pa_data a).

(** A sequence of pushes, one after the other. *)
Definition push_all (s : stream) (l : list push_args) : stream :=
  fold_left push l s.

(** The decoder is attached and accepts the unit of this push. *)
Definition push_succeeds (s : stream) (a : push_args) : bool :=
  match decoder s with
  | Some d =>
      fst (Decode (iface d) (mdecoder d) (pa_data a) (pa_extensions a)) =? 0
  | None => false
  end.

Fixpoint all_succeed (s : stream) (l : list push_args) : bool :=
  match l with
  | [] => true
  | a :: l' => push_succeeds s a && all_succeed (push s a) l'
  end.

(** [n] successive calls of [tsmf_stream_pop_sample]: what each returned, and
    the stream afterwards. *)
Fixpoint pop_n (n : nat) (s : stream) : list (option TSMF_SAMPLE) * stream :=
  match n with
  | O => ([], s)
  | S n' =>
      let '(x, s') := tsmf_stream_pop_sample s in
      let '(xs, s'') := pop_n n' s' in
      (x :: xs, s'')
  end.

(** The sample carries the timing, id and callback of the push. *)
Definition sample_of_push (a : push_args) (x : TSMF_SAMPLE) : Prop :=
  sample_id x = pa_sample_id a /\ start_time x = pa_start_time a /\
  end_time x = pa_end_time a /\ duration x = pa_duration a /\
  sample_channel_callback x = pa_callback a.

Definition nondecreasing (l : list Z) : Prop :=
  forall (i j : nat) (a b : Z),
    (i <= j)%nat -> l !! i = Some a -> l !! j = Some b -> a <= b.

(** What may happen to a running presentation between [tsmf_presentation_start]
    and the end of its playback thread: scheduler invocations, interleaved
    with the calls of the producer side and with changes of the audio sink. *)
Inductive op :=
| OpPop
| OpPush (i : nat) (a : push_args)
| OpEnd (i : nat)
| OpFlush
| OpGeometry (x y width height : Z)
| OpSink (a : option A).

Definition exec (o : op) (p : presentation) : presentation :=
  match o with
  | OpPop => snd (tsmf_presentation_pop_sample p)
  | OpPush i a =>
      push_sample_at p i (pa_callback a) (pa_sample_id a) (pa_start_time a)
        (pa_end_time a) (pa_duration a) (pa_extensions a) (pa_data a)
  | OpEnd i => tsmf_stream_end p i
  | OpFlush => tsmf_presentation_flush p
  | OpGeometry x y w h => tsmf_presentation_set_geometry_info p x y w h
  | OpSink a => set_audio p a
  end.

Definition run (l : list op) (p : presentation) : presentation :=
  fold_left (fun q o => exec o q) l p.

(** The emitted effects the dispatch of a video frame starts with. *)
Definition redraw_effects (p : presentation) : list effect :=
  let revent :=
    RD_REDRAW_EVENT (last_x p) (last_y p) (last_width p) (last_height p) in
  EvPush (channel_callback p) revent ::
  (if tsmf_push_event (channel_callback p) revent =? 0 then []
   else [EvFree revent]).

Definition frame_effects (p : presentation) (s : stream) (x : TSMF_SAMPLE)
  : list effect :=
  let vevent :=
    RD_VIDEO_FRAME_EVENT (data x) (data_size x) RD_PIXFMT_I420
      (width s) (height s)
      (output_x p) (output_y p) (output_width p) (output_height p) in
  EvPush (sample_channel_callback x) vevent ::
  (if tsmf_push_event (sample_channel_callback x) vevent =? 0 then []
   else [EvFree vevent]).

Definition is_redraw (e : effect) : bool :=
  match e with
  | EvPush _ (RD_REDRAW_EVENT _ _ _ _) => true
  | _ => false
  end.

End Notions.

(** ** Further operations of tsmf_media.c *)

(** [TS_AM_MEDIA_TYPE] (tsmf_types.h): the fields that the two source files
    read. *)
Record TS_AM_MEDIA_TYPE := {
  MajorType : Z;
  SubType : Z;
  Width : Z;
  Height : Z;
  BitRate : Z;
  SamplesPerSecond_Numerator : Z;
  SamplesPerSecond_Denominator : Z;
  Channels : Z;
  BitsPerSample : Z;
  BlockAlign : Z;
  ExtraData : option (list byte);
  ExtraDataSize : Z
}.

(** [tsmf_codec_parse_media_type] (tsmf_codec.c) and [tsmf_load_decoder]
    (tsmf_decoder.c), which returns NULL when no decoder takes the format. *)
Class TSMFCodec (D : Type) := {
  tsmf_codec_parse_media_type : list byte -> TS_AM_MEDIA_TYPE;
  tsmf_load_decoder : list byte -> TS_AM_MEDIA_TYPE -> option (decoder_obj D)
}.

Definition set_thread {A D} (p : TSMF_PRESENTATION A D) (status exit : Z)
  : TSMF_PRESENTATION A D :=
  Build_TSMF_PRESENTATION (presentation_id p) status exit
    (playback_time p) (audio p) (sample_rate p) (channels p)
    (bits_per_sample p) (eos p) (last_x p) (last_y p) (last_width p)
    (last_height p) (output_x p) (output_y p) (output_width p)
    (output_height p) (channel_callback p) (stream_list p).

Definition set_audio_format {A D} (p : TSMF_PRESENTATION A D)
    (rate chans bits : Z) : TSMF_PRESENTATION A D :=
  Build_TSMF_PRESENTATION (presentation_id p) (thread_status p) (thread_exit p)
    (playback_time p) (audio p) rate chans bits (eos p) (last_x p) (last_y p)
    (last_width p) (last_height p) (output_x p) (output_y p) (output_width p)
    (output_height p) (channel_callback p) (stream_list p).

Section MediaFurther.
Context {A D : Type} `{!ITSMFAudioDevice A} `{!TSMFConstants} `{!TSMFMain}
  `{!TSMFCodec D}.

Abbreviation stream := (TSMF_STREAM D).
Abbreviation presentation := (TSMF_PRESENTATION A D).

(** [tsmf_presentation_start]: the second component tells whether the
    playback thread is created. *)
Definition tsmf_presentation_start (p : presentation) : presentation * bool :=
  if thread_status p =? 0
  then (set_playback_time (set_thread p 1 0) 0, true)
  else (p, false).

(** [tsmf_stream_free(stream)] for the stream at position [i]: its samples
    are freed, it leaves the stream list and is freed with its decoder. *)
Definition tsmf_stream_free (p : presentation) (i : nat) : presentation :=
  match stream_list p !! i with
  | Some _ => set_stream_list p (delete i (stream_list p))
  | None => p
  end.

(** [tsmf_stream_set_format(stream, name, pMediaType)] for the stream at
    position [i]. *)
Definition tsmf_stream_set_format (p : presentation) (i : nat)
    (name pMediaType : list byte) : presentation :=
  match stream_list p !! i with
  | Some s =>
      let mediatype := tsmf_codec_parse_media_type pMediaType in
      let p :=
        if MajorType mediatype =? TSMF_MAJOR_TYPE_VIDEO then p
        else if MajorType mediatype =? TSMF_MAJOR_TYPE_AUDIO then
          set_audio_format p (SamplesPerSecond_Numerator mediatype)
            (Channels mediatype)
            (if BitsPerSample mediatype =? 0 then 16
             else BitsPerSample mediatype)
        else p in
      let s :=
        Build_TSMF_STREAM (stream_id s) (tsmf_load_decoder name mediatype)
          (MajorType mediatype) (stream_eos s) (Width mediatype)
          (Height mediatype) (sample_queue s) in
      set_stream_list p (<[i := s]> (stream_list p))
  | None => p
  end.

(** [sample->stream] of the sample that [tsmf_presentation_pop_sample]
    returns: the earliest stream of its scan. *)
Definition popped_stream (p : presentation) : option stream :=
  snd <$> (scan_streams (stream_list p) 0 0 None).2.

(** The loop of the playback thread at end of stream,
    [while ((sample = tsmf_presentation_pop_sample(presentation)) != NULL)
       tsmf_sample_playback(sample);]
    with at most [fuel] iterations.  The result is the presentation when
    the loop is left and the samples played, in order, each with what its
    playback did. *)
Fixpoint playback_remaining (fuel : nat) (p : presentation)
  : option (presentation * list (TSMF_SAMPLE * list effect)) :=
  match fuel with
  | O => None
  | S fuel =>
      match tsmf_presentation_pop_sample p, popped_stream p with
      | (Some sample, p), Some s =>
          let '(p, effects) := tsmf_sample_playback p s sample in
          match playback_remaining fuel p with
          | Some (p, played) => Some (p, (sample, effects) :: played)
          | None => None
          end
      | (Some _, _), None => None
      | (None, p), _ => Some (p, [])
      end
  end.

(** The number of samples queued in a presentation. *)
Definition queued (p : presentation) : nat :=
  sum_list (map (fun s : stream => length (sample_queue s)) (stream_list p)).

(** The queue of a stream is in the order of the start times. *)
Definition queue_ordered (s : stream) : Prop :=
  StronglySorted Z.le (map start_time (sample_queue s)).

(** The samples queued in a presentation, stream after stream. *)
Definition all_queued (p : presentation) : list TSMF_SAMPLE :=
  concat (map (fun s : stream => sample_queue s) (stream_list p)).

(** No two presentations of the registry have the same id. *)
Definition registry_unique (registry : list presentation) : Prop :=
  forall (i j : nat) (p q : presentation),
    registry !! i = Some p -> registry !! j = Some q -> i <> j ->
    mem_equal (presentation_id p) (presentation_id q) GUID_SIZE = false.

End MediaFurther.

(** The stream that [tsmf_stream_find_by_id] returns. *)
Definition stream_by_id {A D : Type} (p : TSMF_PRESENTATION A D) (id : Z)
  : option (TSMF_STREAM D) :=
  match tsmf_stream_find_by_id p id with
  | Some i => stream_list p !! i
  | None => None
  end.

(** The stream ids of a presentation, in list order. *)
Definition stream_ids {A D : Type} (p : TSMF_PRESENTATION A D) : list Z :=
  stream_id <$> stream_list p.

(** The decoded size of the FFmpeg decoder is the number of bytes in its
    buffer, as an [uint32]. *)
Definition size_matches {C : Type} (m : TSMFFFmpegDecoder C) : Prop :=
  decoded_size m =
  wrap32 (Z.of_nat (length (buffer_bytes (decoded_data m)))).

(** ** A small world for the examples

    An audio sink whose state is the number of samples it holds, a channel
    that accepts every event, and a toy codec: a video unit decodes to one
    2x2 I420 picture (6 bytes) unless it is empty; an audio unit decodes byte
    by byte to one 16-bit sample each, the byte [xff] is a decoding error,
    and so is a call that is offered no byte. *)

Definition counting_sink : ITSMFAudioDevice Z :=
  {| GetQueueLength a := a; Play a _ _ := a + 1; Flush _ := 0 |}.

Definition header_constants : TSMFConstants :=
  {| GUID_SIZE := 16; TSMF_MAJOR_TYPE_VIDEO := 1; TSMF_MAJOR_TYPE_AUDIO := 2;
     RD_PIXFMT_I420 := 1 |}.

Definition accepting_channel : TSMFMain :=
  {| tsmf_push_event _ _ := 0 |}.

Definition toy_codec : AVCodec unit :=
  {| AVCODEC_MAX_AUDIO_FRAME_SIZE := 192000;
     FF_INPUT_BUFFER_PADDING_SIZE := 8;
     TSMM_SAMPLE_EXT_CLEANPOINT := 1;
     AV_PKT_FLAG_KEY := 1;
     avcodec_decode_video2 c data _ :=
       ((Z.of_nat (length data), match data with [] => 0 | _ => 1 end), c);
     avpicture_get_size _ := 6;
     av_picture_copy _ size := repeat x00 (Z.to_nat size);
     avcodec_decode_audio3 c _ src size :=
       if size <=? 0 then ((-1, 0, []), c)
       else
         match src with
         | b :: _ =>
             if Byte.eqb b xff then ((-1, 0, []), c) else ((1, 2, [b; x00]), c)
         | [] => ((0, 0, []), c)
         end |}.

(** A codec that reports one byte more than it was offered, and an error
    when it is offered nothing; its state counts the calls. *)
Definition greedy_codec : AVCodec Z :=
  {| AVCODEC_MAX_AUDIO_FRAME_SIZE := 192000;
     FF_INPUT_BUFFER_PADDING_SIZE := 8;
     TSMM_SAMPLE_EXT_CLEANPOINT := 1;
     AV_PKT_FLAG_KEY := 1;
     avcodec_decode_video2 c _ _ := ((-1, 0), c);
     avpicture_get_size _ := 0;
     av_picture_copy _ _ := [];
     avcodec_decode_audio3 c _ _ size :=
       if size <=? 0 then ((-1, 0, []), c + 1)
       else ((size + 1, 2, [x00; x00]), c + 1) |}.

Definition toy_ffmpeg (media_type : Z) : TSMFFFmpegDecoder unit :=
  Build_TSMFFFmpegDecoder media_type tt 1 None 0 0.

Definition toy_decoder (media_type : Z) : decoder_obj (TSMFFFmpegDecoder unit) :=
  @ffmpeg_decoder unit toy_codec (toy_ffmpeg media_type).

(** A decoder that offers no [GetDecodedData]. *)
Definition mute_decoder : decoder_obj (TSMFFFmpegDecoder unit) :=
  Build_decoder_obj
    {| Decode := @tsmf_ffmpeg_decode unit toy_codec; GetDecodedData := None |}
    (toy_ffmpeg AVMEDIA_TYPE_VIDEO).

Definition mk_sample (id start_time end_time : Z) : TSMF_SAMPLE :=
  Build_TSMF_SAMPLE id start_time end_time (end_time - start_time) 1
    (Some [x01]) 7.

Definition video_stream (q : list TSMF_SAMPLE) (eos : Z)
  : TSMF_STREAM (TSMFFFmpegDecoder unit) :=
  Build_TSMF_STREAM 1 (Some (toy_decoder AVMEDIA_TYPE_VIDEO)) 1 eos 2 2 q.

Definition audio_stream (q : list TSMF_SAMPLE) (eos : Z)
  : TSMF_STREAM (TSMFFFmpegDecoder unit) :=
  Build_TSMF_STREAM 2 (Some (toy_decoder AVMEDIA_TYPE_AUDIO)) 2 eos 0 0 q.

(** A video stream whose decoder offers no [GetDecodedData]. *)
Definition mute_stream : TSMF_STREAM (TSMFFFmpegDecoder unit) :=
  Build_TSMF_STREAM 1 (Some mute_decoder) 1 0 2 2 [].

Definition example_guid : list byte :=
  [x01; x02; x03; x04; x05; x06; x07; x08;
   x09; x0a; x0b; x0c; x0d; x0e; x0f; x10].

(** A presentation with the given clock, sink and streams; the output region
    is 320x240 at (10, 20) and nothing was delivered yet. *)
Definition mk_presentation (playback_time : Z) (audio : option Z)
    (l : list (TSMF_STREAM (TSMFFFmpegDecoder unit)))
  : TSMF_PRESENTATION Z (TSMFFFmpegDecoder unit) :=
  Build_TSMF_PRESENTATION example_guid 1 0 playback_time audio 44100 2 16 0
    0 0 0 0 10 20 320 240 7 l.

Definition mk_push (id start_time end_time : Z) (data : list byte) : push_args :=
  Build_push_args 7 id start_time end_time (end_time - start_time) 0 data.

(** A media type reader and a decoder loader for the examples: the three
    bytes of the record are the major type, the sub type and the bits per
    sample; sub type 0 has no decoder. *)
Definition toy_media_type (major sub bits : Z) : TS_AM_MEDIA_TYPE :=
  {| MajorType := major; SubType := sub; Width := 2; Height := 2;
     BitRate := 0; SamplesPerSecond_Numerator := 44100;
     SamplesPerSecond_Denominator := 1; Channels := 2;
     BitsPerSample := bits; BlockAlign := 4; ExtraData := None;
     ExtraDataSize := 0 |}.

Definition toy_loader : TSMFCodec (TSMFFFmpegDecoder unit) :=
  {| tsmf_codec_parse_media_type b :=
       match b with
       | [major; sub; bits] =>
           toy_media_type (Z.of_nat (Byte.to_nat major))
             (Z.of_nat (Byte.to_nat sub)) (Z.of_nat (Byte.to_nat bits))
       | _ => toy_media_type 0 0 0
       end;
     tsmf_load_decoder _ mediatype :=
       if SubType mediatype =? 0 then None
       else if MajorType mediatype =? 1
       then Some (toy_decoder AVMEDIA_TYPE_VIDEO)
       else if MajorType mediatype =? 2
       then Some (toy_decoder AVMEDIA_TYPE_AUDIO)
       else None |}.

Definition other_guid : list byte :=
  [xff; x02; x03; x04; x05; x06; x07; x08;
   x09; x0a; x0b; x0c; x0d; x0e; x0f; x10].

(** A presentation at end of stream without sink: two video frames and
    three audio samples are queued, both streams have ended. *)
Definition ended_presentation
  : TSMF_PRESENTATION Z (TSMFFFmpegDecoder unit) :=
  set_eos
    (mk_presentation 0 None
       [video_stream [mk_sample 1 0 100; mk_sample 2 100 200] 1;
        audio_stream [mk_sample 3 0 50; mk_sample 4 50 100;
                      mk_sample 5 100 150] 1]) 1.

(** * Properties *)

(** ** Records and field assignments *)

Section Fields.
Context {A D : Type}.

Lemma set_playback_time_same (p : TSMF_PRESENTATION A D) :
  set_playback_time p (playback_time p) = p.
Proof. destruct p; reflexivity. Qed.

Lemma set_stream_list_same (p : TSMF_PRESENTATION A D) :
  set_stream_list p (stream_list p) = p.
Proof. destruct p; reflexivity. Qed.

Lemma set_sample_queue_same (s : TSMF_STREAM D) :
  set_sample_queue s (sample_queue s) = s.
Proof. destruct s; reflexivity. Qed.

End Fields.

(** ** The scan of the scheduler *)

Section Scan.
Context {A D : Type} `{!ITSMFAudioDevice A} `{!TSMFConstants}.

Lemma has_pending_snoc (l : list (TSMF_STREAM D)) (s : TSMF_STREAM D) :
  has_pending (l ++ [s]) <-> has_pending l \/ stream_pending s.
Proof.
  unfold has_pending. split.
  - intros (t & Ht & Hp). apply elem_of_app in Ht as [Ht | Ht].
    + left. eauto.
    + apply list_elem_of_singleton in Ht. subst. now right.
  - intros [(t & Ht & Hp) | Hp].
    + exists t. split; [apply elem_of_app; now left | done].
    + exists s. split; [apply elem_of_app; right; now apply list_elem_of_singleton | done].
Qed.

Lemma earliest_snoc_empty (l : list (TSMF_STREAM D)) s i t x :
  sample_queue s = [] -> earliest l i t x -> earliest (l ++ [s]) i t x.
Proof.
  intros Hs (Hi & Hx & Hmin). split; [|split]; [|done|].
  - apply lookup_app_Some. now left.
  - intros j u y Hj Hy. apply lookup_snoc_Some in Hj as [[_ Hj] | [_ ->]].
    + eauto.
    + rewrite Hs in Hy. discriminate.
Qed.

Lemma earliest_snoc_keep (l : list (TSMF_STREAM D)) s y q i t x :
  sample_queue s = y :: q -> start_time x <= start_time y ->
  earliest l i t x -> earliest (l ++ [s]) i t x.
Proof.
  intros Hs Hle (Hi & Hx & Hmin). split; [|split]; [|done|].
  - apply lookup_app_Some. now left.
  - intros j u z Hj Hz. apply lookup_snoc_Some in Hj as [[_ Hj] | [-> ->]].
    + eauto.
    + rewrite Hs in Hz. simpl in Hz. injection Hz as <-. split; [done|].
      intros Hlt. apply lookup_lt_Some in Hi. lia.
Qed.

Lemma earliest_snoc_new (l : list (TSMF_STREAM D)) s y q :
  sample_queue s = y :: q ->
  (forall j t z, l !! j = Some t -> head (sample_queue t) = Some z ->
                 start_time y < start_time z) ->
  earliest (l ++ [s]) (length l) s y.
Proof.
  intros Hs Hlt. split; [|split].
  - apply lookup_snoc_Some. now right.
  - now rewrite Hs.
  - intros j u z Hj Hz. apply lookup_snoc_Some in Hj as [[Hjl Hj] | [-> ->]].
    + specialize (Hlt _ _ _ Hj Hz). lia.
    + rewrite Hs in Hz. simpl in Hz. injection Hz as <-. lia.
Qed.

Lemma scanned_step (l : list (TSMF_STREAM D)) s hp e :
  scanned l hp e ->
  scanned (l ++ [s])
    (match sample_queue s with
     | [] => if stream_eos s =? 0 then 1 else hp
     | _ :: _ => hp
     end)
    (match sample_queue s with
     | [] => e
     | sample :: _ =>
         match e with
         | None => Some (length l, s)
         | Some (_, t) =>
             if head_start_time t >? start_time sample
             then Some (length l, s) else e
         end
     end).
Proof.
  intros (Hhp & Hpend & He).
  destruct (sample_queue s) as [|y q] eqn:Hs.
  - split; [|split].
    + destruct (stream_eos s =? 0); auto.
    + rewrite has_pending_snoc. unfold stream_pending at 1.
      destruct (Z.eqb_spec (stream_eos s) 0) as [Heos | Heos].
      * split; [intros _; now right | done].
      * rewrite Hpend. split; [now left | intros [? | [_ ?]]; done].
    + destruct e as [[i t]|].
      * destruct He as [x Hx]. exists x. now apply earliest_snoc_empty.
      * intros j u Hj. apply lookup_snoc_Some in Hj as [[_ Hj] | [_ <-]]; eauto.
  - split; [done|split].
    + rewrite has_pending_snoc, Hpend. unfold stream_pending.
      rewrite Hs. split; [now left | intros [? | [? _]]; done].
    + destruct e as [[i t]|].
      * destruct He as [x Hx].
        assert (Hhd : head_start_time t = start_time x).
        { destruct Hx as (_ & Hx & _). unfold head_start_time.
          destruct (sample_queue t); simpl in Hx; [done | congruence]. }
        rewrite Hhd. destruct (Z.gtb_spec (start_time x) (start_time y)).
        -- exists y. eapply earliest_snoc_new; [done|].
           intros j u z Hj Hz. destruct Hx as (_ & _ & Hmin).
           specialize (Hmin _ _ _ Hj Hz). lia.
        -- exists x. eapply earliest_snoc_keep; eauto.
      * exists y. eapply earliest_snoc_new; [done|].
        intros j u z Hj Hz. apply He in Hj. rewrite Hj in Hz. discriminate.
Qed.

Lemma scan_streams_scanned (l pre : list (TSMF_STREAM D)) hp e :
  scanned pre hp e ->
  scanned (pre ++ l) (scan_streams l (length pre) hp e).1
    (scan_streams l (length pre) hp e).2.
Proof.
  revert pre hp e. induction l as [|s l IH]; intros pre hp e Hinv.
  - simpl. now rewrite app_nil_r.
  - simpl. apply (scanned_step _ s) in Hinv. apply IH in Hinv.
    rewrite length_app, Nat.add_1_r, <- app_assoc in Hinv. exact Hinv.
Qed.

Lemma earliest_unique (l : list (TSMF_STREAM D)) i s x j t y :
  earliest l i s x -> earliest l j t y -> i = j /\ s = t /\ x = y.
Proof.
  intros (Hi & Hx & Hmin) (Hj & Hy & Hmin').
  destruct (Hmin _ _ _ Hj Hy) as [H1 H2].
  destruct (Hmin' _ _ _ Hi Hx) as [H3 H4].
  assert (i = j) as -> by lia.
  rewrite Hi in Hj. injection Hj as ->. rewrite Hx in Hy. now injection Hy as ->.
Qed.

(** The scan finds the earliest stream and whether a stream is pending. *)
Lemma scan_streams_earliest (l : list (TSMF_STREAM D)) i s x :
  earliest l i s x ->
  exists hp, scan_streams l 0 0 None = (hp, Some (i, s)) /\
             (hp = 0 \/ hp = 1) /\ (hp = 1 <-> has_pending l).
Proof.
  intros He.
  assert (Hinit : scanned (@nil (TSMF_STREAM D)) 0 None).
  { split; [now left | split].
    - split; [done | intros (t & Ht & _); now apply elem_of_nil in Ht].
    - intros j t Hj. done. }
  apply (scan_streams_scanned l) in Hinit. simpl in Hinit.
  destruct (scan_streams l 0 0 None) as [hp e]. simpl in Hinit.
  destruct Hinit as (Hhp & Hpend & Hfound). exists hp.
  destruct e as [[j t]|].
  - destruct Hfound as [y Hy].
    destruct (earliest_unique _ _ _ _ _ _ _ He Hy) as (-> & -> & ->). done.
  - destruct He as (Hi & Hx & _). apply Hfound in Hi. rewrite Hi in Hx. done.
Qed.

(** There is an earliest stream as soon as one queue is not empty. *)
Lemma earliest_exists (l : list (TSMF_STREAM D)) j t :
  l !! j = Some t -> sample_queue t <> [] -> exists i s x, earliest l i s x.
Proof.
  intros Hj Hq.
  assert (Hinit : scanned (@nil (TSMF_STREAM D)) 0 None).
  { split; [now left | split].
    - split; [done | intros (u & Hu & _); now apply elem_of_nil in Hu].
    - intros k u Hk. done. }
  apply (scan_streams_scanned l) in Hinit. simpl in Hinit.
  destruct (scan_streams l 0 0 None) as [hp [[i s]|]]; simpl in Hinit;
    destruct Hinit as (_ & _ & Hfound).
  - destruct Hfound as [x Hx]. eauto.
  - now apply Hfound in Hj.
Qed.


Lemma pop_from_head (p : TSMF_PRESENTATION A D) i s x :
  head (sample_queue s) = Some x ->
  pop_from p i s =
  (Some x,
   set_stream_list p
     (<[i := set_sample_queue s (tail (sample_queue s))]> (stream_list p))).
Proof.
  unfold pop_from, tsmf_stream_pop_sample. intros Hx.
  destruct (sample_queue s); simpl in *; [done | congruence].
Qed.

(** The clock update at the end of [tsmf_presentation_pop_sample]. *)
Lemma advance_clock (q : TSMF_PRESENTATION A D) x :
  (if end_time x >? playback_time q
   then (Some x, set_playback_time q (end_time x))
   else (Some x, q)) =
  (Some x, set_playback_time q (Z.max (playback_time q) (end_time x))).
Proof.
  destruct (Z.gtb_spec (end_time x) (playback_time q)).
  - now rewrite Z.max_r by lia.
  - rewrite Z.max_l by lia. now rewrite set_playback_time_same.
Qed.

Lemma head_start_time_head (s : TSMF_STREAM D) x :
  head (sample_queue s) = Some x -> head_start_time s = start_time x.
Proof.
  unfold head_start_time.
  destruct (sample_queue s); simpl; [done | congruence].
Qed.

End Scan.

(** ** The scheduler: [tsmf_presentation_pop_sample] *)

Section Scheduler.
Context {A D : Type} `{!ITSMFAudioDevice A} `{!TSMFConstants}.

Lemma pop_audio (p : TSMF_PRESENTATION A D) i s x :
  earliest (stream_list p) i s x ->
  major_type s = TSMF_MAJOR_TYPE_AUDIO ->
  tsmf_presentation_pop_sample p =
  if match audio p with
     | None => true
     | Some a => GetQueueLength a <? 10
     end
  then (Some x, after_pop p i s x) else (None, p).
Proof.
  intros He Hty. unfold tsmf_presentation_pop_sample.
  destruct (scan_streams_earliest _ _ _ _ He) as (hp & -> & _).
  rewrite Hty, Z.eqb_refl.
  destruct (match audio p with None => true | Some a => GetQueueLength a <? 10 end);
    [|done].
  destruct He as (_ & Hx & _). rewrite (pop_from_head _ _ _ _ Hx).
  rewrite advance_clock. reflexivity.
Qed.

Lemma pop_other (p : TSMF_PRESENTATION A D) i s x :
  earliest (stream_list p) i s x ->
  major_type s <> TSMF_MAJOR_TYPE_AUDIO ->
  exists hp, (hp = 0 \/ hp = 1) /\ (hp = 1 <-> has_pending (stream_list p)) /\
    tsmf_presentation_pop_sample p =
    if (hp =? 0) || (playback_time p =? 0) || (playback_time p >=? start_time x)
    then (Some x, after_pop p i s x) else (None, p).
Proof.
  intros He Hty. unfold tsmf_presentation_pop_sample.
  destruct (scan_streams_earliest _ _ _ _ He) as (hp & -> & Hhp & Hpend).
  exists hp. split; [done | split; [done|]].
  destruct (Z.eqb_spec (major_type s) TSMF_MAJOR_TYPE_AUDIO); [done|].
  destruct He as (_ & Hx & _). rewrite (head_start_time_head _ _ Hx).
  destruct ((hp =? 0) || (playback_time p =? 0)
            || (playback_time p >=? start_time x)); [|done].
  rewrite (pop_from_head _ _ _ _ Hx), advance_clock. reflexivity.
Qed.


(** Ending a stream that waits for data leaves the earliest stream what it
    was. *)
Lemma earliest_stream_end (p : TSMF_PRESENTATION A D) i s x j t :
  earliest (stream_list p) i s x ->
  stream_list p !! j = Some t -> stream_pending t ->
  earliest (stream_list (tsmf_stream_end p j)) i s x.
Proof.
  intros (Hi & Hx & Hmin) Hj [Hq _]. unfold tsmf_stream_end. rewrite Hj. simpl.
  assert (Hne : j <> i).
  { intros ->. rewrite Hi in Hj. injection Hj as ->. rewrite Hq in Hx. done. }
  split; [|split]; [|done|].
  - now rewrite list_lookup_insert_ne.
  - intros k u y Hk Hy. destruct (decide (j = k)) as [<- | Hjk].
    + rewrite list_lookup_insert_eq in Hk by (now apply lookup_lt_Some in Hj).
      injection Hk as <-. simpl in Hy. rewrite Hq in Hy. done.
    + rewrite list_lookup_insert_ne in Hk by done. eauto.
Qed.

Lemma no_pending_stream_end (p : TSMF_PRESENTATION A D) j t :
  stream_list p !! j = Some t ->
  (forall k u, k <> j -> stream_list p !! k = Some u -> ~ stream_pending u) ->
  ~ has_pending (stream_list (tsmf_stream_end p j)).
Proof.
  intros Hj Hothers (u & Hu & Hp). unfold tsmf_stream_end in Hu.
  rewrite Hj in Hu. simpl in Hu.
  apply list_elem_of_lookup_1 in Hu as [k Hk].
  destruct (decide (j = k)) as [<- | Hjk].
  - rewrite list_lookup_insert_eq in Hk by (now apply lookup_lt_Some in Hj).
    injection Hk as <-. destruct Hp as [_ Heos]. simpl in Heos. done.
  - rewrite list_lookup_insert_ne in Hk by done.
    eapply Hothers; [|exact Hk|exact Hp]. congruence.
Qed.

Lemma pop_from_time (p : TSMF_PRESENTATION A D) i s :
  playback_time (pop_from p i s).2 = playback_time p.
Proof.
  unfold pop_from, tsmf_stream_pop_sample. now destruct (sample_queue s).
Qed.

Lemma pop_sample_time (p : TSMF_PRESENTATION A D) :
  match tsmf_presentation_pop_sample p with
  | (Some x, p') => playback_time p' = Z.max (playback_time p) (end_time x)
  | (None, p') => playback_time p' = playback_time p
  end.
Proof.
  unfold tsmf_presentation_pop_sample.
  destruct (scan_streams (stream_list p) 0 0 None) as [hp e].
  assert (Hstep : forall (r : option TSMF_SAMPLE * TSMF_PRESENTATION A D),
    playback_time r.2 = playback_time p ->
    match
      (let '(sample, q) := r in
       match sample with
       | Some x =>
           if end_time x >? playback_time q
           then (sample, set_playback_time q (end_time x)) else (sample, q)
       | None => (None, q)
       end)
    with
    | (Some x, p') => playback_time p' = Z.max (playback_time p) (end_time x)
    | (None, p') => playback_time p' = playback_time p
    end).
  { intros [[x|] q] Hq; simpl in *; [|done].
    destruct (Z.gtb_spec (end_time x) (playback_time q)); simpl; lia. }
  destruct e as [[i s]|]; [|now apply (Hstep (None, p))].
  destruct (major_type s =? TSMF_MAJOR_TYPE_AUDIO).
  - destruct (match audio p with None => true | Some a => GetQueueLength a <? 10 end).
    + apply (Hstep (pop_from p i s)), pop_from_time.
    + now apply (Hstep (None, p)).
  - destruct ((hp =? 0) || (playback_time p =? 0)
              || (playback_time p >=? head_start_time s)).
    + apply (Hstep (pop_from p i s)), pop_from_time.
    + now apply (Hstep (None, p)).
Qed.

Lemma exec_time (o : op) (p : TSMF_PRESENTATION A D) :
  playback_time p <= playback_time (exec o p).
Proof.
  destruct o as [|i a| i | | x y w h | a]; simpl.
  - pose proof (pop_sample_time p) as Hpop.
    destruct (tsmf_presentation_pop_sample p) as [[x|] q]; simpl; lia.
  - unfold push_sample_at. destruct (stream_list p !! i); simpl; lia.
  - unfold tsmf_stream_end. destruct (stream_list p !! i); simpl; lia.
  - unfold tsmf_presentation_flush. simpl. destruct (audio p); simpl; lia.
  - lia.
  - lia.
Qed.

Lemma run_time (l : list op) (p : TSMF_PRESENTATION A D) :
  playback_time p <= playback_time (run l p).
Proof.
  revert p. induction l as [|o l IH]; intros p; simpl; [lia|].
  etransitivity; [apply (exec_time o) | apply IH].
Qed.

(** C1. When the earliest stream is an audio stream, the scheduler returns
    nothing and changes nothing if an audio sink is attached and reports 10
    queued samples or more; in every other case it pops the head sample of
    that stream and returns it. *)
Theorem C1_audio_lookahead (p : TSMF_PRESENTATION A D) i s x :
  earliest (stream_list p) i s x ->
  major_type s = TSMF_MAJOR_TYPE_AUDIO ->
  (forall a, audio p = Some a -> 10 <= GetQueueLength a ->
     tsmf_presentation_pop_sample p = (None, p)) /\
  (audio p = None \/ (exists a, audio p = Some a /\ GetQueueLength a < 10) ->
     tsmf_presentation_pop_sample p = (Some x, after_pop p i s x)).
Proof.
  intros He Hty. rewrite (pop_audio p i s x He Hty). split.
  - intros a -> Hfull. destruct (Z.ltb_spec (GetQueueLength a) 10); [lia | done].
  - intros [-> | (a & -> & Hlow)]; [done|].
    destruct (Z.ltb_spec (GetQueueLength a) 10); [done | lia].
Qed.

(** C2. When the earliest stream is not an audio stream, its head sample is
    popped if and only if no stream is pending, or [playback_time] is zero, or
    [playback_time] has reached the sample's [start_time]; otherwise nothing
    is popped and nothing changes.  A pending stream stops being pending when
    it is ended: if it was the only pending one, the head sample is popped
    in the next invocation. *)
Theorem C2_non_audio_selection (p : TSMF_PRESENTATION A D) i s x :
  earliest (stream_list p) i s x ->
  major_type s <> TSMF_MAJOR_TYPE_AUDIO ->
  let eligible (q : TSMF_PRESENTATION A D) :=
    ~ has_pending (stream_list q) \/ playback_time q = 0 \/
    playback_time q >= start_time x in
  (eligible p <-> tsmf_presentation_pop_sample p = (Some x, after_pop p i s x)) /\
  (~ eligible p <-> tsmf_presentation_pop_sample p = (None, p)) /\
  (forall j t,
     stream_list p !! j = Some t -> stream_pending t ->
     (forall k u, k <> j -> stream_list p !! k = Some u -> ~ stream_pending u) ->
     ~ stream_pending (set_stream_eos t 1) /\
     eligible (tsmf_stream_end p j) /\
     tsmf_presentation_pop_sample (tsmf_stream_end p j) =
     (Some x, after_pop (tsmf_stream_end p j) i s x)).
Proof.
  intros He Hty eligible.
  assert (Hdec : forall q, earliest (stream_list q) i s x ->
    (eligible q /\ tsmf_presentation_pop_sample q = (Some x, after_pop q i s x)) \/
    (~ eligible q /\ tsmf_presentation_pop_sample q = (None, q))).
  { intros q Hq. destruct (pop_other q i s x Hq Hty) as (hp & Hhp & Hpend & ->).
    unfold eligible.
    destruct (Z.eqb_spec hp 0) as [Hz | Hnz]; simpl.
    { left. split; [|done]. left. rewrite <- Hpend. lia. }
    destruct (Z.eqb_spec (playback_time q) 0); simpl.
    { left. split; [|done]. right. now left. }
    destruct (Z.geb_spec (playback_time q) (start_time x)).
    { left. split; [|done]. right. right. lia. }
    right. split; [|done].
    intros [Hno | [? | ?]]; [|done|lia].
    apply Hno, Hpend. lia. }
  split; [|split].
  - destruct (Hdec p He) as [[Hy Hpop] | [Hn Hpop]]; rewrite Hpop.
    + done.
    + split; [done | discriminate].
  - destruct (Hdec p He) as [[Hy Hpop] | [Hn Hpop]]; rewrite Hpop.
    + split; [done | discriminate].
    + done.
  - intros j t Hj Hpend Hothers.
    assert (Hel : eligible (tsmf_stream_end p j)).
    { left. eapply no_pending_stream_end; eauto. }
    split; [intros [_ Heos]; simpl in Heos; done | split; [done|]].
    destruct (Hdec (tsmf_stream_end p j)) as [[_ Hpop] | [Hn _]]; [|done|done].
    eapply earliest_stream_end; eauto.
Qed.

(** C3. An invocation that pops a sample sets [playback_time] to the maximum
    of its old value and the sample's [end_time]; one that pops nothing leaves
    it unchanged; over any sequence of invocations, also interleaved with the
    calls of the producer side, [playback_time] never decreases. *)
Theorem C3_playback_time_monotone (p : TSMF_PRESENTATION A D) :
  match tsmf_presentation_pop_sample p with
  | (Some x, p') => playback_time p' = Z.max (playback_time p) (end_time x)
  | (None, p') => playback_time p' = playback_time p
  end /\
  (forall n : nat,
     playback_time p <= playback_time (run (repeat OpPop n) p)) /\
  (forall l1 l2 : list op,
     playback_time (run l1 p) <= playback_time (run (l1 ++ l2) p)).
Proof.
  split; [apply pop_sample_time | split].
  - intros n. apply run_time.
  - intros l1 l2. unfold run. rewrite fold_left_app. apply run_time.
Qed.

End Scheduler.

(** ** Creation with an id that exists *)

Section Creation.
Context {A D : Type} `{!TSMFConstants}.

Lemma find_presentation_from_elem (l : list (TSMF_PRESENTATION A D)) i guid q :
  q ∈ l -> mem_equal (presentation_id q) guid GUID_SIZE = true ->
  exists k, find_presentation_from l i guid = Some k.
Proof.
  intros Hq Heq. revert i.
  induction Hq as [q l | q q' l Hq IH]; intros i; simpl.
  - rewrite Heq. eauto.
  - destruct (mem_equal (presentation_id q') guid GUID_SIZE); eauto.
Qed.

Lemma find_stream_from_elem (l : list (TSMF_STREAM D)) i id s :
  s ∈ l -> stream_id s = id -> exists k, find_stream_from l i id = Some k.
Proof.
  intros Hs Heq. revert i.
  induction Hs as [s l | s s' l Hs IH]; intros i; simpl.
  - rewrite Heq, Z.eqb_refl. eauto.
  - destruct (stream_id s' =? id); eauto.
Qed.

(** C4. Creating a presentation whose id is in the registry returns no
    presentation and leaves the registry, with all it holds, as it was;
    creating a stream whose id exists in the presentation returns no stream
    and leaves the presentation, with its streams and their queues, as it
    was. *)
Theorem C4_duplicate_id_rejected
    (registry : list (TSMF_PRESENTATION A D)) (guid : list byte)
    (pChannelCallback : IWTSVirtualChannelCallback)
    (p : TSMF_PRESENTATION A D) (id : Z) :
  ((exists q, q ∈ registry /\
              mem_equal (presentation_id q) guid GUID_SIZE = true) ->
   tsmf_presentation_new registry guid pChannelCallback = (None, registry)) /\
  ((exists s, s ∈ stream_list p /\ stream_id s = id) ->
   tsmf_stream_new p id = (None, p)).
Proof.
  split.
  - intros (q & Hq & Heq). unfold tsmf_presentation_new, tsmf_presentation_find_by_id.
    destruct (find_presentation_from_elem registry 0%nat guid q Hq Heq) as [k ->].
    reflexivity.
  - intros (s & Hs & Heq). unfold tsmf_stream_new, tsmf_stream_find_by_id.
    destruct (find_stream_from_elem (stream_list p) 0%nat id s Hs Heq) as [k ->].
    reflexivity.
Qed.

End Creation.

(** ** Flush *)

Section FlushProperties.
Context {A D : Type} `{!ITSMFAudioDevice A}.

(** The loop of [tsmf_stream_flush] ends, with the queue empty and the other
    fields untouched. *)
Lemma flush_samples_spec (s : TSMF_STREAM D) :
  flush_samples s = set_sample_queue s [].
Proof.
  funelim (flush_samples s).
  - match goal with e : sample_queue _ = [] |- _ => rewrite <- e end.
    symmetry. apply set_sample_queue_same.
  - match goal with
    | IH : flush_samples _ = set_sample_queue _ _ |- _ => rewrite IH
    end.
    unfold tsmf_stream_pop_sample. now destruct (sample_queue s).
Qed.

Lemma tsmf_stream_flush_spec (s : TSMF_STREAM D) :
  tsmf_stream_flush s = set_stream_eos (set_sample_queue s []) 0.
Proof. unfold tsmf_stream_flush. now rewrite flush_samples_spec. Qed.


Lemma flush_stream_list (p : TSMF_PRESENTATION A D) :
  stream_list (tsmf_presentation_flush p) =
  map tsmf_stream_flush (stream_list p).
Proof. unfold tsmf_presentation_flush. simpl. now destruct (audio p). Qed.

Lemma flush_eos (p : TSMF_PRESENTATION A D) :
  eos (tsmf_presentation_flush p) = 0.
Proof. reflexivity. Qed.

Lemma flushed_streams (l : list (TSMF_STREAM D)) :
  Forall (fun s => sample_queue s = [] /\ stream_eos s = 0)
    (map tsmf_stream_flush l).
Proof.
  induction l as [|s l IH]; simpl; constructor; [|done].
  now rewrite tsmf_stream_flush_spec.
Qed.


(** C10. Every flush of a presentation sets the presentation's own eos flag
    to 0 and the eos flag of each of its streams to 0, also when a stream had
    signalled end-of-stream, which sets both flags to 1. *)
Theorem C10_flush_clears_presentation_eos (p : TSMF_PRESENTATION A D) :
  eos (tsmf_presentation_flush p) = 0 /\
  Forall (fun s => stream_eos s = 0) (stream_list (tsmf_presentation_flush p)) /\
  (forall i s,
     stream_list p !! i = Some s ->
     eos (tsmf_stream_end p i) = 1 /\
     stream_eos <$> stream_list (tsmf_stream_end p i) !! i = Some 1 /\
     eos (tsmf_presentation_flush (tsmf_stream_end p i)) = 0 /\
     Forall (fun s => stream_eos s = 0)
       (stream_list (tsmf_presentation_flush (tsmf_stream_end p i)))).
Proof.
  assert (Hall : forall q : TSMF_PRESENTATION A D,
    Forall (fun s => stream_eos s = 0) (stream_list (tsmf_presentation_flush q))).
  { intros q. rewrite flush_stream_list.
    eapply Forall_impl; [apply flushed_streams|]. now intros s [_ ?]. }
  split; [reflexivity | split; [apply Hall|]].
  intros i s Hi. split; [|split; [|split]].
  - unfold tsmf_stream_end. now rewrite Hi.
  - unfold tsmf_stream_end. rewrite Hi. simpl.
    rewrite list_lookup_insert_eq by (now apply lookup_lt_Some in Hi). done.
  - reflexivity.
  - apply Hall.
Qed.

End FlushProperties.

(** ** The sample queue of a stream *)

Section Queue.
Context {D : Type}.

Lemma push_sample_queue (s : TSMF_STREAM D) (a : push_args) :
  push_succeeds s a = true ->
  exists x, sample_queue (push s a) = sample_queue s ++ [x] /\
            sample_of_push a x.
Proof.
  unfold push_succeeds, push, tsmf_stream_push_sample.
  destruct (decoder s) as [d|]; [|done].
  destruct (Decode (iface d) (mdecoder d) (pa_data a) (pa_extensions a))
    as [ret m]. simpl. intros ->. simpl.
  destruct (match GetDecodedData (iface d) with
            | Some get => get m
            | None => (None, 0, m)
            end) as [[buf size] m'].
  simpl. eexists. split; [reflexivity|]. repeat split.
Qed.

Lemma push_all_queue (l : list push_args) (s : TSMF_STREAM D) :
  all_succeed s l = true ->
  exists xs, sample_queue (push_all s l) = sample_queue s ++ xs /\
             Forall2 sample_of_push l xs.
Proof.
  revert s. induction l as [|a l IH]; intros s; simpl.
  - intros _. exists []. now rewrite app_nil_r.
  - intros [Ha Hl]%andb_prop.
    destruct (push_sample_queue s a Ha) as (x & Hx & Hax).
    destruct (IH _ Hl) as (xs & Hxs & Hall).
    exists (x :: xs). split; [|now constructor].
    unfold push_all in *. simpl. rewrite Hxs, Hx, <- app_assoc. reflexivity.
Qed.

(** Popping as many times as the queue is long returns the queue, head
    first. *)
Lemma pop_n_queue (q : list TSMF_SAMPLE) (s : TSMF_STREAM D) :
  sample_queue s = q ->
  pop_n (length q) s = (map Some q, set_sample_queue s []).
Proof.
  revert s. induction q as [|x q IH]; intros s Hq; simpl.
  - now rewrite <- Hq, set_sample_queue_same.
  - unfold tsmf_stream_pop_sample. rewrite Hq.
    rewrite (IH (set_sample_queue s q)) by reflexivity. reflexivity.
Qed.

Lemma start_times_of_pushes (l : list push_args) (xs : list TSMF_SAMPLE) :
  Forall2 sample_of_push l xs -> map start_time xs = map pa_start_time l.
Proof.
  induction 1 as [|a x l xs (_ & Hst & _) _ IH]; simpl; [done|].
  now rewrite Hst, IH.
Qed.

(** C5 as amended.  Without a decoder, or when [Decode] fails, the call
    leaves the queue as it was.  When [Decode] succeeds, one sample with the
    id, times and callback of the call is appended at the tail; it carries
    the buffer and size that [GetDecodedData] returns when the decoder has
    that function, and no buffer and size 0 when it has none. *)
Theorem C5_push_sample (s : TSMF_STREAM D)
    (pChannelCallback : IWTSVirtualChannelCallback)
    (sample_id start_time end_time duration extensions : Z)
    (data : list byte) :
  let s' :=
    tsmf_stream_push_sample s pChannelCallback sample_id start_time end_time
      duration extensions data in
  (decoder s = None -> s' = s) /\
  (forall d ret m,
     decoder s = Some d ->
     Decode (iface d) (mdecoder d) data extensions = (ret, m) -> ret <> 0 ->
     sample_queue s' = sample_queue s) /\
  (forall d m,
     decoder s = Some d ->
     Decode (iface d) (mdecoder d) data extensions = (0, m) ->
     (forall get, GetDecodedData (iface d) = Some get ->
        sample_queue s' =
        sample_queue s ++
        [Build_TSMF_SAMPLE sample_id start_time end_time duration
           (get m).1.2 (get m).1.1 pChannelCallback]) /\
     (GetDecodedData (iface d) = None ->
        sample_queue s' =
        sample_queue s ++
        [Build_TSMF_SAMPLE sample_id start_time end_time duration
           0 None pChannelCallback])).
Proof.
  intros s'. unfold s', tsmf_stream_push_sample. split; [|split].
  - now intros ->.
  - intros d ret m -> -> Hret. destruct (Z.eqb_spec ret 0); done.
  - intros d m -> ->. simpl. split.
    + intros get ->. now destruct (get m) as [[buf size] m'].
    + now intros ->.
Qed.

(** C6. After a sequence of pushes that all succeed, the queue is the old
    queue followed by one sample per push, in push order; successive pops
    return exactly these samples in that order and then nothing; on a queue
    that was empty, the popped start times are the pushed ones, so they are
    non-decreasing when the pushed ones are. *)
Theorem C6_queue_fifo (s : TSMF_STREAM D) (l : list push_args) :
  all_succeed s l = true ->
  exists xs : list TSMF_SAMPLE,
    Forall2 sample_of_push l xs /\
    sample_queue (push_all s l) = sample_queue s ++ xs /\
    (pop_n (length (sample_queue s ++ xs)) (push_all s l)).1 =
      map Some (sample_queue s ++ xs) /\
    (tsmf_stream_pop_sample
       (pop_n (length (sample_queue s ++ xs)) (push_all s l)).2).1 = None /\
    (sample_queue s = [] ->
     (pop_n (length l) (push_all s l)).1 = map Some xs /\
     map start_time xs = map pa_start_time l /\
     (nondecreasing (map pa_start_time l) ->
      nondecreasing (map start_time xs))).
Proof.
  intros Hok. destruct (push_all_queue l s Hok) as (xs & Hq & Hall).
  exists xs. split; [done | split; [done|]].
  pose proof (pop_n_queue _ _ Hq) as Hpop.
  split; [now rewrite Hpop | split; [now rewrite Hpop|]].
  intros Hempty. rewrite Hempty in Hpop. simpl in Hpop.
  rewrite (Forall2_length _ _ _ Hall), Hpop.
  split; [done|]. rewrite (start_times_of_pushes _ _ Hall). done.
Qed.

End Queue.

(** ** The FFmpeg decoder: [Decode] and [GetDecodedData] *)

Section Decoder.
Context {C : Type} `{!AVCodec C}.

Lemma to_int32_le (x : Z) : 0 <= x -> to_int32 x <= x.
Proof.
  intros Hx. unfold to_int32, wrap32.
  assert (Hle : x mod 2 ^ 32 <= x) by (apply Z.mod_le; lia).
  destruct (x mod 2 ^ 32 <? 2 ^ 31); lia.
Qed.

Lemma wrap32_le (x : Z) : 0 <= x -> 0 <= wrap32 x <= x.
Proof.
  intros Hx. unfold wrap32. split.
  - apply Z.mod_pos_bound. lia.
  - apply Z.mod_le; lia.
Qed.

(** The audio loop keeps the buffer that was allocated before it. *)
Lemma decode_audio_loop_buffer (fuel : nat) :
  forall (m m' : TSMFFFmpegDecoder C) pad_data offset src_size,
    decoded_data m <> None ->
    decode_audio_loop fuel m pad_data offset src_size = Some m' ->
    decoded_data m' <> None.
Proof.
  induction fuel as [|fuel IH]; intros m m' pad_data offset src_size Hbuf;
    cbn [decode_audio_loop].
  - destruct (src_size >? 0); [done|]. now intros [= <-].
  - destruct (src_size >? 0); [|now intros [= <-]].
    destruct (avcodec_decode_audio3 _ _ _ _) as [[[len frame_size] pcm] c].
    destruct ((len <=? 0) || (frame_size <=? 0)).
    + intros [= <-]. unfold ensure_space. simpl.
      now destruct (wrap32 (decoded_size_max m - decoded_size m)
                    <? AVCODEC_MAX_AUDIO_FRAME_SIZE).
    + apply IH. done.
Qed.

(** Without input the loop is not entered. *)
Lemma decode_audio_loop_skipped (fuel : nat) (m : TSMFFFmpegDecoder C)
    pad_data offset src_size :
  src_size <= 0 -> decode_audio_loop fuel m pad_data offset src_size = Some m.
Proof.
  intros Hsize. destruct fuel; cbn [decode_audio_loop];
    destruct (Z.gtb_spec src_size 0); (lia || done).
Qed.

(** With a codec that consumes what it is offered, [src_size] goes down in
    every turn, and the loop ends within [src_size] turns and one. *)
Lemma decode_audio_loop_ends :
  consumes_what_is_offered ->
  forall (fuel : nat) (m : TSMFFFmpegDecoder C) pad_data offset src_size,
    (Z.to_nat src_size < fuel)%nat ->
    exists m', decode_audio_loop fuel m pad_data offset src_size = Some m'.
Proof.
  intros Hcodec. induction fuel as [|fuel IH];
    intros m pad_data offset src_size Hfuel; [lia|].
  cbn [decode_audio_loop].
  destruct (Z.gtb_spec src_size 0) as [Hpos | Hzero]; [|eauto].
  pose proof (Hcodec (codec_context (ensure_space m))
                (to_int32 (decoded_size_max (ensure_space m)
                           - decoded_size (ensure_space m)))
                (drop (Z.to_nat offset) pad_data) (to_int32 src_size)) as Hlen.
  destruct (avcodec_decode_audio3 _ _ _ _) as [[[len frame_size] pcm] c].
  simpl in Hlen.
  destruct (Z.leb_spec len 0) as [Hneg | Hgot]; [eauto|].
  destruct (Z.leb_spec frame_size 0) as [Hnone | Hframe]; [eauto|].
  cbn [orb]. apply IH.
  specialize (Hlen Hgot).
  pose proof (to_int32_le src_size ltac:(lia)).
  pose proof (wrap32_le (src_size - len) ltac:(lia)).
  lia.
Qed.

Lemma decode_video_ok (m : TSMFFFmpegDecoder C) data extensions :
  (tsmf_ffmpeg_decode_video m data extensions).1 = 0 ->
  exists buf,
    decoded_data (tsmf_ffmpeg_decode_video m data extensions).2 = Some buf /\
    decoded_size (tsmf_ffmpeg_decode_video m data extensions).2 =
    wrap32 (avpicture_get_size
              (codec_context (tsmf_ffmpeg_decode_video m data extensions).2)).
Proof.
  unfold tsmf_ffmpeg_decode_video.
  destruct (avcodec_decode_video2 _ _ _) as [[len decoded] c].
  destruct (len <? 0); [done|]. destruct (decoded =? 0); [done|].
  simpl. eauto.
Qed.

(** When the audio path returns, it returns 0, with the buffer of the loop
    unless nothing is in it. *)
Lemma decode_audio_returns (fuel : nat) (m : TSMFFFmpegDecoder C) data
    extensions r :
  tsmf_ffmpeg_decode_audio fuel m data extensions = Some r ->
  exists m1,
    decode_audio_loop fuel (audio_buffer_init m)
      (data ++ repeat x00 FF_INPUT_BUFFER_PADDING_SIZE) 0
      (Z.of_nat (length data)) = Some m1 /\
    decoded_data m1 <> None /\
    r = (0, if decoded_size m1 =? 0 then set_decoded m1 None (decoded_size m1)
            else m1).
Proof.
  unfold tsmf_ffmpeg_decode_audio.
  destruct (decode_audio_loop _ _ _ _ _) as [m1|] eqn:Hloop; [|done].
  intros [= <-]. exists m1. split; [done | split; [|done]].
  eapply decode_audio_loop_buffer; [|exact Hloop]. done.
Qed.

(** [Decode] fails only on the video path or for an unknown media type, and
    leaves no output then. *)
Lemma decode_within_failure (fuel : nat) (m : TSMFFFmpegDecoder C) data
    extensions r :
  tsmf_ffmpeg_decode_within fuel m data extensions = Some r ->
  r.1 <> 0 ->
  decoded_data r.2 = None /\ decoded_size r.2 = 0 /\
  media_type m <> AVMEDIA_TYPE_AUDIO.
Proof.
  unfold tsmf_ffmpeg_decode_within. simpl.
  destruct (Z.eqb_spec (media_type m) AVMEDIA_TYPE_VIDEO) as [Hv | Hv].
  - unfold tsmf_ffmpeg_decode_video. simpl.
    destruct (avcodec_decode_video2 _ _ _) as [[len decoded] c].
    intros [= <-] Hret. rewrite Hv.
    destruct (len <? 0); [done|]. destruct (decoded =? 0); done.
  - destruct (Z.eqb_spec (media_type m) AVMEDIA_TYPE_AUDIO) as [Ha | Ha].
    + intros Hrun Hret. exfalso. apply Hret.
      destruct (decode_audio_returns _ _ _ _ _ Hrun) as (m1 & _ & _ & ->).
      done.
    + now intros [= <-].
Qed.

Lemma decode_failure_state (m : TSMFFFmpegDecoder C) data extensions :
  (tsmf_ffmpeg_decode m data extensions).1 <> 0 ->
  decoded_data (tsmf_ffmpeg_decode m data extensions).2 = None /\
  decoded_size (tsmf_ffmpeg_decode m data extensions).2 = 0 /\
  media_type m <> AVMEDIA_TYPE_AUDIO.
Proof.
  unfold tsmf_ffmpeg_decode.
  destruct (tsmf_ffmpeg_decode_within _ m data extensions) as [r|] eqn:Hrun.
  - apply (decode_within_failure _ _ _ _ _ Hrun).
  - done.
Qed.

(** With a codec that consumes what it is offered, [Decode] returns, and the
    function pointer follows all of it. *)
Lemma decode_returns (m : TSMFFFmpegDecoder C) data extensions :
  consumes_what_is_offered ->
  exists r,
    tsmf_ffmpeg_decode_within (S (length data)) m data extensions = Some r /\
    tsmf_ffmpeg_decode m data extensions = r.
Proof.
  intros Hcodec. unfold tsmf_ffmpeg_decode.
  assert (Hrun : exists r,
    tsmf_ffmpeg_decode_within (S (length data)) m data extensions = Some r).
  { unfold tsmf_ffmpeg_decode_within.
    destruct (_ =? AVMEDIA_TYPE_VIDEO); [eauto|].
    destruct (_ =? AVMEDIA_TYPE_AUDIO); [|eauto].
    unfold tsmf_ffmpeg_decode_audio.
    destruct (decode_audio_loop_ends Hcodec (S (length data))
                (audio_buffer_init (set_decoded m None 0))
                (data ++ repeat x00 FF_INPUT_BUFFER_PADDING_SIZE) 0
                (Z.of_nat (length data)) ltac:(lia)) as [m1 ->].
    eauto. }
  destruct Hrun as [r Hrun]. exists r. now rewrite Hrun.
Qed.

(** C7 as amended.  On the video path [Decode] returns, and when it returns 0
    the following [GetDecodedData] returns a buffer that is not NULL, with
    the size of a picture.  On the audio path [Decode] never fails: whenever
    it returns, it returns 0, and the following [GetDecodedData] returns the
    [decoded_size] that the loop has added up, with the decoded bytes when
    that size is not 0 and with NULL when it is 0.  Nothing is decoded, and
    NULL with size 0 returned, when the payload is empty or the first call of
    the codec reports no consumed byte or no output.  When the first call
    consumes all of the payload and reports [frame_size] bytes of output,
    those bytes are returned, with size [frame_size].  With a codec that
    consumes no more than it is offered, [Decode] returns for every
    payload. *)
Theorem C7_decode_then_get (m : TSMFFFmpegDecoder C) (data : list byte)
    (extensions : Z) :
  let got (r : Z * TSMFFFmpegDecoder C) :=
    (tsmf_ffmpeg_get_decoded_data r.2).1 in
  let start := audio_buffer_init (set_decoded m None 0) in
  let pad_data := data ++ repeat x00 FF_INPUT_BUFFER_PADDING_SIZE in
  let first :=
    avcodec_decode_audio3 (codec_context (ensure_space start))
      (to_int32 (decoded_size_max (ensure_space start)
                 - decoded_size (ensure_space start)))
      pad_data (to_int32 (Z.of_nat (length data))) in
  (media_type m = AVMEDIA_TYPE_VIDEO ->
   forall fuel, exists r,
     tsmf_ffmpeg_decode_within fuel m data extensions = Some r /\
     tsmf_ffmpeg_decode m data extensions = r /\
     (r.1 = 0 ->
      exists buf,
        got r = (Some buf, wrap32 (avpicture_get_size (codec_context r.2))))) /\
  (media_type m = AVMEDIA_TYPE_AUDIO ->
   (forall fuel r,
      tsmf_ffmpeg_decode_within fuel m data extensions = Some r ->
      r.1 = 0 /\
      exists m1,
        decode_audio_loop fuel start pad_data 0 (Z.of_nat (length data))
          = Some m1 /\
        got r = (if decoded_size m1 =? 0 then None
                 else Some (buffer_bytes (decoded_data m1)), decoded_size m1) /\
        ((got r).1 <> None <-> (got r).2 <> 0)) /\
   (data = [] \/ first.1.1.1 <= 0 \/ first.1.1.2 <= 0 ->
    forall fuel, (0 < fuel)%nat -> exists r,
      tsmf_ffmpeg_decode_within fuel m data extensions = Some r /\
      r.1 = 0 /\ got r = (None, 0)) /\
   (data <> [] -> 0 < first.1.1.1 -> 0 < first.1.1.2 ->
    wrap32 (Z.of_nat (length data) - first.1.1.1) = 0 ->
    forall fuel, (0 < fuel)%nat -> exists r,
      tsmf_ffmpeg_decode_within fuel m data extensions = Some r /\
      r.1 = 0 /\
      got r = (if wrap32 first.1.1.2 =? 0 then None else Some first.1.2,
               wrap32 first.1.1.2)) /\
   (consumes_what_is_offered -> exists r,
      tsmf_ffmpeg_decode_within (S (length data)) m data extensions = Some r /\
      tsmf_ffmpeg_decode m data extensions = r)).
Proof.
  intros got start pad_data first. split.
  - intros Hty fuel.
    assert (Hrun : forall n,
      tsmf_ffmpeg_decode_within n m data extensions =
      Some (tsmf_ffmpeg_decode_video (set_decoded m None 0) data extensions)).
    { intros n. unfold tsmf_ffmpeg_decode_within. simpl. now rewrite Hty. }
    eexists. split; [apply Hrun|]. split.
    + unfold tsmf_ffmpeg_decode. now rewrite Hrun.
    + intros Hret. destruct (decode_video_ok _ _ _ Hret) as (buf & Hbuf & Hsize).
      exists buf. unfold got, tsmf_ffmpeg_get_decoded_data. simpl.
      now rewrite Hbuf, Hsize.
  - intros Hty.
    assert (Hrun : forall n,
      tsmf_ffmpeg_decode_within n m data extensions =
      tsmf_ffmpeg_decode_audio n (set_decoded m None 0) data extensions).
    { intros n. unfold tsmf_ffmpeg_decode_within. simpl. now rewrite Hty. }
    assert (Hstart : decoded_size start = 0 /\ decoded_data start = Some []).
    { unfold start, audio_buffer_init. simpl.
      now destruct (decoded_size_max m =? 0). }
    destruct Hstart as [Hsize0 Hdata0].
    assert (Hspace : decoded_size (ensure_space start) = 0 /\
                     decoded_data (ensure_space start) = Some []).
    { unfold ensure_space.
      now destruct (wrap32 (decoded_size_max start - decoded_size start)
                    <? AVCODEC_MAX_AUDIO_FRAME_SIZE). }
    destruct Hspace as [Hsize1 Hdata1].
    split; [|split; [|split]].
    + intros fuel r Hr. rewrite Hrun in Hr.
      destruct (decode_audio_returns _ _ _ _ _ Hr) as (m1 & Hloop & Hbuf & ->).
      split; [done|]. exists m1. split; [exact Hloop|].
      unfold got, tsmf_ffmpeg_get_decoded_data. simpl.
      destruct (Z.eqb_spec (decoded_size m1) 0) as [Hz | Hnz]; simpl.
      * rewrite Hz. done.
      * destruct (decoded_data m1) as [buf|] eqn:Hbytes; [|done].
        simpl. done.
    + intros Hnothing fuel Hfuel. rewrite Hrun.
      unfold tsmf_ffmpeg_decode_audio. fold start. fold pad_data.
      destruct fuel as [|fuel]; [lia|].
      destruct Hnothing as [-> | Hfirst].
      * rewrite decode_audio_loop_skipped by (simpl; lia).
        rewrite Hsize0. simpl. eauto.
      * cbn [decode_audio_loop].
        destruct (Z.gtb_spec (Z.of_nat (length data)) 0) as [Hpos | Hzero].
        -- change (drop (Z.to_nat 0) pad_data) with pad_data. fold first.
           destruct first as [[[len frame_size] pcm] c]. simpl in Hfirst.
           assert (Htest : (len <=? 0) || (frame_size <=? 0) = true).
           { destruct Hfirst as [Hl | Hf].
             - apply Z.leb_le in Hl. now rewrite Hl.
             - apply Z.leb_le in Hf. rewrite Hf. apply orb_true_r. }
           rewrite Htest. simpl. rewrite Hsize1. simpl. eauto.
        -- rewrite Hsize0. simpl. eauto.
    + intros Hdata Hlen Hframe Hall fuel Hfuel. rewrite Hrun.
      unfold tsmf_ffmpeg_decode_audio. fold start. fold pad_data.
      destruct fuel as [|fuel]; [lia|].
      cbn [decode_audio_loop].
      destruct (Z.gtb_spec (Z.of_nat (length data)) 0) as [Hpos | Hzero];
        [|destruct data; [done | simpl in Hzero; lia]].
      change (drop (Z.to_nat 0) pad_data) with pad_data. fold first.
      destruct first as [[[len frame_size] pcm] c]. simpl in Hlen, Hframe, Hall.
      assert (Htest : (len <=? 0) || (frame_size <=? 0) = false).
      { apply orb_false_intro; apply Z.leb_gt; lia. }
      rewrite Htest, Hall.
      rewrite decode_audio_loop_skipped by lia.
      simpl. rewrite Hsize1, Hdata1, Z.add_0_l. simpl.
      unfold got, tsmf_ffmpeg_get_decoded_data.
      destruct (wrap32 frame_size =? 0); simpl; eauto.
    + apply decode_returns.
Qed.

End Decoder.

(** ** Dispatch of a video sample *)

Section Dispatch.
Context {A D : Type} `{!TSMFConstants} `{!TSMFMain}.

Lemma region_differs_test (p : TSMF_PRESENTATION A D) :
  negb (last_x p =? output_x p) || negb (last_y p =? output_y p)
  || negb (last_width p =? output_width p)
  || negb (last_height p =? output_height p) = true <-> region_differs p.
Proof.
  unfold region_differs.
  destruct (Z.eqb_spec (last_x p) (output_x p)),
    (Z.eqb_spec (last_y p) (output_y p)),
    (Z.eqb_spec (last_width p) (output_width p)),
    (Z.eqb_spec (last_height p) (output_height p)); simpl; intuition congruence.
Qed.

Lemma frame_effects_no_redraw (p : TSMF_PRESENTATION A D) s x :
  existsb is_redraw (frame_effects p s x) = false.
Proof.
  unfold frame_effects. simpl.
  now destruct (tsmf_push_event _ _ =? 0).
Qed.

(** What [tsmf_sample_playback_video] does with a sample that has a
    payload. *)
Lemma playback_video_payload (p : TSMF_PRESENTATION A D) s x buf :
  data x = Some buf ->
  tsmf_sample_playback_video p s x =
  (set_last p (output_x p) (output_y p) (output_width p) (output_height p),
   set_data x None 0,
   (if (negb (last_x p =? output_x p) || negb (last_y p =? output_y p)
        || negb (last_width p =? output_width p)
        || negb (last_height p =? output_height p))
       && (negb (last_width p =? 0) && negb (last_height p =? 0))
    then redraw_effects p else [])
   ++ frame_effects p s x).
Proof.
  intros Hdata. unfold tsmf_sample_playback_video. rewrite Hdata.
  unfold tsmf_presentation_restore_last_video_frame, redraw_effects,
    frame_effects.
  rewrite Hdata.
  destruct (negb (last_x p =? output_x p) || negb (last_y p =? output_y p)
            || negb (last_width p =? output_width p)
            || negb (last_height p =? output_height p)); simpl.
  - destruct (negb (last_width p =? 0) && negb (last_height p =? 0)); simpl.
    + destruct (tsmf_push_event (channel_callback p) _ =? 0); simpl;
        destruct (tsmf_push_event (sample_channel_callback x) _ =? 0);
        reflexivity.
    + destruct (tsmf_push_event (sample_channel_callback x) _ =? 0);
        reflexivity.
  - destruct (tsmf_push_event (sample_channel_callback x) _ =? 0);
      reflexivity.
Qed.

(** C9 as amended.  For a video sample with a payload, the redraw of the
    previous region is emitted, before the video frame, if and only if the
    last delivered region differs from the target region and its width and
    height are both not 0; the video frame is emitted in every case; after
    the dispatch the last delivered region is the target region and the
    sample holds no buffer.  For a sample without payload nothing is emitted
    and nothing changes. *)
Theorem C9_video_dispatch (p : TSMF_PRESENTATION A D) (s : TSMF_STREAM D)
    (x : TSMF_SAMPLE) :
  let '(p', x', effects) := tsmf_sample_playback_video p s x in
  let stale :=
    region_differs p /\ last_width p <> 0 /\ last_height p <> 0 in
  (forall buf, data x = Some buf ->
     (stale -> effects = redraw_effects p ++ frame_effects p s x) /\
     (~ stale -> effects = frame_effects p s x) /\
     (existsb is_redraw effects = true <-> stale) /\
     (last_x p', last_y p', last_width p', last_height p') =
     (output_x p, output_y p, output_width p, output_height p) /\
     (output_x p', output_y p', output_width p', output_height p') =
     (output_x p, output_y p, output_width p, output_height p) /\
     data x' = None /\ data_size x' = 0) /\
  (data x = None -> p' = p /\ x' = x /\ effects = []).
Proof.
  destruct (data x) as [buf|] eqn:Hdata.
  - rewrite (playback_video_payload p s x buf Hdata).
    split; [|discriminate]. intros _ _.
    set (differs := negb (last_x p =? output_x p) || _ || _ || _).
    assert (Hstale : differs && (negb (last_width p =? 0)
                                 && negb (last_height p =? 0)) = true <->
                     region_differs p /\ last_width p <> 0 /\ last_height p <> 0).
    { rewrite andb_true_iff, andb_true_iff, !negb_true_iff, !Z.eqb_neq.
      unfold differs. now rewrite region_differs_test. }
    destruct (differs && _) eqn:Htest.
    + assert (Hyes : region_differs p /\ last_width p <> 0 /\ last_height p <> 0)
        by now apply Hstale.
      split; [done | split; [done | split; [|done]]].
      split; [done | intros _; reflexivity].
    + assert (Hno : ~ (region_differs p /\ last_width p <> 0 /\ last_height p <> 0)).
      { intros Hs. apply Hstale in Hs. discriminate. }
      split; [done | split; [done | split; [|done]]].
      simpl app. rewrite frame_effects_no_redraw. split; [discriminate | done].
  - unfold tsmf_sample_playback_video. rewrite Hdata.
    split; [discriminate | done].
Qed.

End Dispatch.

(** ** The scheduler: what it returns, and what is left *)

Section SchedulerResult.
Context {A D : Type} `{!ITSMFAudioDevice A} `{!TSMFConstants} `{!TSMFMain}.

Lemma scan_streams_result (l : list (TSMF_STREAM D)) :
  scanned l (scan_streams l 0 0 None).1 (scan_streams l 0 0 None).2.
Proof.
  assert (Hinit : scanned (@nil (TSMF_STREAM D)) 0 None).
  { split; [now left | split].
    - split; [done | intros (u & Hu & _); now apply elem_of_nil in Hu].
    - intros k u Hk. done. }
  apply (scan_streams_scanned l) in Hinit. exact Hinit.
Qed.

(** X1. A sample that the scheduler returns is the head sample of the
    earliest stream, which loses it, and the clock moves to the maximum of
    its old value and the sample's end time; when the scheduler returns
    nothing, the presentation is as it was. *)
Theorem pop_sample_earliest_or_nothing (p : TSMF_PRESENTATION A D) :
  match tsmf_presentation_pop_sample p with
  | (Some x, p') =>
      exists i s, earliest (stream_list p) i s x /\
                  popped_stream p = Some s /\ p' = after_pop p i s x
  | (None, p') => p' = p
  end.
Proof.
  pose proof (scan_streams_result (stream_list p)) as Hscan.
  unfold popped_stream, tsmf_presentation_pop_sample.
  destruct (scan_streams (stream_list p) 0 0 None) as [hp e]. simpl in Hscan.
  destruct Hscan as (_ & _ & Hfound).
  destruct e as [[i s]|]; [|done].
  destruct Hfound as [x Hx].
  assert (Hpop :
    (let '(sample, q) := pop_from p i s in
     match sample with
     | Some y =>
         if end_time y >? playback_time q
         then (sample, set_playback_time q (end_time y)) else (sample, q)
     | None => (None, q)
     end) = (Some x, after_pop p i s x)).
  { destruct Hx as (_ & Hhd & _). rewrite (pop_from_head _ _ _ _ Hhd).
    rewrite advance_clock. reflexivity. }
  destruct (major_type s =? TSMF_MAJOR_TYPE_AUDIO).
  - destruct (match audio p with None => true | Some a => GetQueueLength a <? 10 end);
      [|done].
    rewrite Hpop. eauto.
  - destruct ((hp =? 0) || (playback_time p =? 0)
              || (playback_time p >=? head_start_time s)); [|done].
    rewrite Hpop. eauto.
Qed.

Lemma sum_list_insert (f : TSMF_STREAM D -> nat) (l : list (TSMF_STREAM D))
    (i : nat) (s t : TSMF_STREAM D) :
  l !! i = Some s ->
  (sum_list (map f (<[i := t]> l)) + f s = sum_list (map f l) + f t)%nat.
Proof.
  revert i. induction l as [|u l IH]; intros [|i] Hi; simpl in *; try done.
  - injection Hi as ->. lia.
  - specialize (IH i Hi). lia.
Qed.

Lemma queued_after_pop (p : TSMF_PRESENTATION A D) i s x :
  earliest (stream_list p) i s x -> S (queued (after_pop p i s x)) = queued p.
Proof.
  intros (Hi & Hx & _). unfold queued, after_pop. simpl.
  pose proof (sum_list_insert (fun s : TSMF_STREAM D => length (sample_queue s))
                (stream_list p) i s
                (set_sample_queue s (tail (sample_queue s))) Hi) as Hsum.
  simpl in Hsum. destruct (sample_queue s); simpl in *; [done | lia].
Qed.

(** X2. Each sample that the scheduler returns leaves the queues: the
    number of queued samples goes down by one, and it stays what it was when
    nothing is returned. *)
Theorem pop_sample_queued (p : TSMF_PRESENTATION A D) :
  match tsmf_presentation_pop_sample p with
  | (Some _, p') => S (queued p') = queued p
  | (None, p') => queued p' = queued p
  end.
Proof.
  pose proof (pop_sample_earliest_or_nothing p) as Hpop.
  destruct (tsmf_presentation_pop_sample p) as [[x|] p'].
  - destruct Hpop as (i & s & He & _ & ->). now apply queued_after_pop.
  - now subst.
Qed.

Lemma playback_video_streams (p : TSMF_PRESENTATION A D) s x :
  stream_list (tsmf_sample_playback_video p s x).1.1 = stream_list p /\
  audio (tsmf_sample_playback_video p s x).1.1 = audio p /\
  sample_id (tsmf_sample_playback_video p s x).1.2 = sample_id x /\
  duration (tsmf_sample_playback_video p s x).1.2 = duration x /\
  sample_channel_callback (tsmf_sample_playback_video p s x).1.2 =
    sample_channel_callback x.
Proof.
  destruct (data x) as [buf|] eqn:Hdata.
  - rewrite (playback_video_payload p s x buf Hdata). done.
  - unfold tsmf_sample_playback_video. rewrite Hdata. done.
Qed.

Lemma playback_streams (p : TSMF_PRESENTATION A D) s x :
  stream_list (tsmf_sample_playback p s x).1 = stream_list p /\
  (audio p = None -> audio (tsmf_sample_playback p s x).1 = None).
Proof.
  unfold tsmf_sample_playback.
  destruct (major_type s =? TSMF_MAJOR_TYPE_VIDEO).
  - pose proof (playback_video_streams p s x) as (Hl & Ha & _).
    destruct (tsmf_sample_playback_video p s x) as [[q y] e]. simpl in *.
    split; [done | congruence].
  - destruct (major_type s =? TSMF_MAJOR_TYPE_AUDIO); [|done].
    unfold tsmf_sample_playback_audio.
    destruct (audio p) as [a|] eqn:Ha; [|done].
    destruct (data x); simpl; split; done.
Qed.

(** X3. The playback of a sample ends with its acknowledgment, the only
    one, which carries the id and the duration of the sample.  The size it
    reports is 0 when the buffer went to the video frame event or to the
    audio sink.  It is the sample's size when the sample kept its buffer,
    that is on an audio stream without a sink and on a stream of another
    major type, and when the sample had no buffer; nothing else is sent
    then. *)
Theorem playback_acknowledges_once (p : TSMF_PRESENTATION A D)
    (s : TSMF_STREAM D) (x : TSMF_SAMPLE) :
  exists dispatch size,
    (tsmf_sample_playback p s x).2 =
      dispatch ++
      [EvAck (sample_channel_callback x) (sample_id x) (duration x) size] /\
    Forall (fun e => match e with EvAck _ _ _ _ => False | _ => True end)
      dispatch /\
    (size = 0 \/ size = data_size x) /\
    (data x <> None ->
     major_type s = TSMF_MAJOR_TYPE_VIDEO \/
     (major_type s = TSMF_MAJOR_TYPE_AUDIO /\ audio p <> None) ->
     size = 0) /\
    (data x = None -> dispatch = [] /\ size = data_size x) /\
    (major_type s <> TSMF_MAJOR_TYPE_VIDEO ->
     major_type s <> TSMF_MAJOR_TYPE_AUDIO \/ audio p = None ->
     dispatch = [] /\ size = data_size x /\
     (tsmf_sample_playback p s x).1 = p).
Proof.
  unfold tsmf_sample_playback, tsmf_sample_ack.
  destruct (Z.eqb_spec (major_type s) TSMF_MAJOR_TYPE_VIDEO) as [Hv | Hv].
  - destruct (data x) as [buf|] eqn:Hdata.
    + rewrite (playback_video_payload p s x buf Hdata). simpl.
      eexists _, 0. split; [reflexivity|].
      split; [|split; [now left | split; [done | split; done]]].
      apply Forall_app. split.
      * destruct (_ && _); [|constructor]. unfold redraw_effects.
        destruct (tsmf_push_event _ _ =? 0); repeat constructor.
      * unfold frame_effects.
        destruct (tsmf_push_event _ _ =? 0); repeat constructor.
    + unfold tsmf_sample_playback_video. rewrite Hdata. simpl.
      exists [], (data_size x). split; [done|].
      split; [constructor | split; [now right | split; [done | split; done]]].
  - destruct (Z.eqb_spec (major_type s) TSMF_MAJOR_TYPE_AUDIO) as [Ha | Ha].
    + unfold tsmf_sample_playback_audio.
      destruct (audio p) as [a|] eqn:Haudio, (data x) as [buf|] eqn:Hdata;
        simpl.
      * exists [], 0. split; [done|].
        split; [constructor | split; [now left | split; [done | split; [done|]]]].
        intros _ [? | ?]; done.
      * exists [], (data_size x). split; [done|].
        split; [constructor | split; [now right | split; [done | split; [done|]]]].
        intros _ [? | ?]; done.
      * exists [], (data_size x). split; [done|].
        split; [constructor | split; [now right | split; [|split; done]]].
        intros _ [? | [_ ?]]; done.
      * exists [], (data_size x). split; [done|].
        split; [constructor | split; [now right | split; [done | split; done]]].
    + simpl. exists [], (data_size x). split; [done|].
      split; [constructor | split; [now right | split; [|split; done]]].
      intros _ [? | [? _]]; done.
Qed.

End SchedulerResult.

(** ** The playback thread at end of stream *)

Section PlaybackRemaining.
Context {A D : Type} `{!ITSMFAudioDevice A} `{!TSMFConstants} `{!TSMFMain}.

(** One turn of the loop. *)
Lemma playback_remaining_step (fuel : nat) (p : TSMF_PRESENTATION A D) :
  playback_remaining (S fuel) p =
  match tsmf_presentation_pop_sample p, popped_stream p with
  | (Some sample, q), Some s =>
      match playback_remaining fuel (tsmf_sample_playback q s sample).1 with
      | Some (r, played) =>
          Some (r, (sample, (tsmf_sample_playback q s sample).2) :: played)
      | None => None
      end
  | (Some _, _), None => None
  | (None, q), _ => Some (q, [])
  end.
Proof.
  simpl. destruct (tsmf_presentation_pop_sample p) as [[x|] q]; [|done].
  destruct (popped_stream p) as [s|]; [|done].
  now destruct (tsmf_sample_playback q s x) as [r e].
Qed.

Lemma queued_playback (p : TSMF_PRESENTATION A D) s x :
  queued (tsmf_sample_playback p s x).1 = queued p.
Proof. unfold queued. now rewrite (proj1 (playback_streams p s x)). Qed.

Lemma playback_remaining_ends (fuel : nat) (p : TSMF_PRESENTATION A D) :
  (queued p < fuel)%nat ->
  exists p' played,
    playback_remaining fuel p = Some (p', played) /\
    (tsmf_presentation_pop_sample p').1 = None /\
    (length played + queued p' = queued p)%nat.
Proof.
  revert p. induction fuel as [|fuel IH]; intros p Hfuel; [lia|].
  rewrite playback_remaining_step.
  pose proof (pop_sample_earliest_or_nothing p) as Hpop.
  pose proof (pop_sample_queued p) as Hq.
  destruct (tsmf_presentation_pop_sample p) as [[x|] q] eqn:Hp.
  - destruct Hpop as (i & s & _ & -> & _).
    destruct (IH (tsmf_sample_playback q s x).1) as (p' & played & -> & Hend & Hlen).
    { rewrite queued_playback. lia. }
    rewrite queued_playback in Hlen.
    exists p', ((x, (tsmf_sample_playback q s x).2) :: played).
    split; [done | split; [done | simpl; lia]].
  - subst q. exists p, []. split; [now destruct (popped_stream p)|].
    split; [now rewrite Hp | simpl; lia].
Qed.

(** An invariant of the turns of the loop holds when the loop is left. *)
Lemma playback_remaining_invariant (I : TSMF_PRESENTATION A D -> Prop) :
  (forall p x q s,
     I p -> tsmf_presentation_pop_sample p = (Some x, q) ->
     I (tsmf_sample_playback q s x).1) ->
  forall fuel p p' played,
    I p -> playback_remaining fuel p = Some (p', played) -> I p'.
Proof.
  intros Hstep fuel. induction fuel as [|fuel IH]; intros p p' played Hp; [done|].
  rewrite playback_remaining_step.
  destruct (tsmf_presentation_pop_sample p) as [[x|] q] eqn:Hpop.
  - destruct (popped_stream p) as [s|]; [|done].
    destruct (playback_remaining fuel _) as [[r pl]|] eqn:Hrec; [|done].
    intros [= <- <-]. eapply IH; [|exact Hrec]. eapply Hstep; eauto.
  - pose proof (pop_sample_earliest_or_nothing p) as Hnone.
    rewrite Hpop in Hnone. subst q.
    destruct (popped_stream p); now intros [= <- <-].
Qed.

Lemma queued_positive (p : TSMF_PRESENTATION A D) :
  (0 < queued p)%nat ->
  exists j t, stream_list p !! j = Some t /\ sample_queue t <> [].
Proof.
  unfold queued. induction (stream_list p) as [|s l IH]; simpl; [lia|].
  intros Hpos. destruct (sample_queue s) as [|x q] eqn:Hs.
  - destruct IH as (j & t & Hj & Ht); [simpl in Hpos; lia|].
    exists (S j), t. done.
  - exists 0%nat, s. split; [done | now rewrite Hs].
Qed.

Lemma queued_zero (p : TSMF_PRESENTATION A D) :
  queued p = 0%nat ->
  forall j t, stream_list p !! j = Some t -> sample_queue t = [].
Proof.
  unfold queued. induction (stream_list p) as [|s l IH]; intros Hz j t Hj;
    [done|].
  simpl in Hz. destruct j as [|j]; simpl in Hj.
  - injection Hj as ->. destruct (sample_queue t); [done | simpl in Hz; lia].
  - apply (IH ltac:(lia) j t Hj).
Qed.

(** Without a sink and with every stream ended, the scheduler returns a
    sample as long as one is queued. *)
Lemma pop_sample_progress (p : TSMF_PRESENTATION A D) :
  audio p = None ->
  (forall j t, stream_list p !! j = Some t -> stream_eos t <> 0) ->
  (0 < queued p)%nat ->
  (tsmf_presentation_pop_sample p).1 <> None.
Proof.
  intros Haudio Heos Hpos.
  destruct (queued_positive p Hpos) as (j & t & Hj & Ht).
  destruct (earliest_exists _ _ _ Hj Ht) as (i & s & x & He).
  destruct (Z.eq_dec (major_type s) TSMF_MAJOR_TYPE_AUDIO) as [Hty | Hty].
  - rewrite (pop_audio p i s x He Hty), Haudio. done.
  - destruct (pop_other p i s x He Hty) as (hp & Hhp & Hpend & ->).
    assert (hp = 0) as ->.
    { destruct Hhp as [? | Hone]; [done|]. apply Hpend in Hone.
      destruct Hone as (u & Hu & _ & Hz).
      apply list_elem_of_lookup_1 in Hu as [k Hk]. now apply Heos in Hk. }
    done.
Qed.

(** Without a sink and with every stream ended, the loop is left with all
    queues empty. *)
Lemma playback_remaining_drained (fuel : nat)
    (p p' : TSMF_PRESENTATION A D) played :
  audio p = None ->
  (forall j t, stream_list p !! j = Some t -> stream_eos t <> 0) ->
  playback_remaining fuel p = Some (p', played) ->
  (tsmf_presentation_pop_sample p').1 = None ->
  forall j t, stream_list p' !! j = Some t -> sample_queue t = [].
Proof.
  intros Haudio Heos Hrun Hend.
  assert (Hinv : audio p' = None /\
                 forall j t, stream_list p' !! j = Some t -> stream_eos t <> 0).
  { apply (playback_remaining_invariant
             (fun q => audio q = None /\
                       forall j t, stream_list q !! j = Some t -> stream_eos t <> 0))
      with (fuel := fuel) (p := p) (played := played); [|done|done].
    intros q x r s [Ha He] Hpop.
    pose proof (pop_sample_earliest_or_nothing q) as Hsound.
    rewrite Hpop in Hsound. destruct Hsound as (i & u & (Hi & _) & _ & ->).
    destruct (playback_streams (after_pop q i u x) s x) as [-> Hnone].
    split; [now apply Hnone|].
    intros j t Hj. simpl in Hj.
    destruct (decide (i = j)) as [<- | Hij].
    - rewrite list_lookup_insert_eq in Hj by (now apply lookup_lt_Some in Hi).
      injection Hj as <-. simpl. eauto.
    - rewrite list_lookup_insert_ne in Hj by done. eauto. }
  destruct Hinv as [Haudio' Heos'].
  assert (Hzero : queued p' = 0%nat).
  { destruct (queued p') eqn:Hq; [done|].
    exfalso. apply (pop_sample_progress p'); [done | done | lia | done]. }
  now apply queued_zero.
Qed.

(** X4. The loop that plays what is left at end of stream ends after at
    most as many turns as samples are queued, at a presentation where the
    scheduler returns nothing; every turn plays one sample.  Without an
    audio sink and with every stream ended, it plays every queued sample and
    leaves all queues empty. *)
Theorem playback_remaining_plays (p : TSMF_PRESENTATION A D) :
  exists p' played,
    playback_remaining (S (queued p)) p = Some (p', played) /\
    (tsmf_presentation_pop_sample p').1 = None /\
    (length played + queued p' = queued p)%nat /\
    (audio p = None ->
     (forall j t, stream_list p !! j = Some t -> stream_eos t <> 0) ->
     length played = queued p /\
     forall j t, stream_list p' !! j = Some t -> sample_queue t = []).
Proof.
  destruct (playback_remaining_ends (S (queued p)) p) as (p' & played & Hrun & Hend & Hlen);
    [lia|].
  exists p', played. split; [done | split; [done | split; [done|]]].
  intros Haudio Heos.
  pose proof (playback_remaining_drained _ _ _ _ Haudio Heos Hrun Hend) as Hempty.
  split; [|exact Hempty].
  assert (Hzero : queued p' = 0%nat); [|lia].
  unfold queued. clear -Hempty.
  induction (stream_list p') as [|s l IH]; [done|]. simpl.
  rewrite (Hempty 0%nat s eq_refl). simpl.
  apply IH. intros j t Hj. apply (Hempty (S j) t Hj).
Qed.

Lemma Forall_map_le {X : Type} (f : X -> Z) (bound : Z) (l : list X) :
  Forall (Z.le bound) (map f l) <-> Forall (fun y => bound <= f y) l.
Proof.
  induction l as [|y l IH]; simpl; split; intros Hall;
    try constructor; inversion Hall; subst; try done; now apply IH.
Qed.

(** After a pop every queue is still in the order of the start times, and
    no queued sample starts before the sample that was popped. *)
Lemma ordered_after_pop (p : TSMF_PRESENTATION A D) i s x :
  earliest (stream_list p) i s x ->
  (forall j t, stream_list p !! j = Some t -> queue_ordered t) ->
  forall j t,
    stream_list (after_pop p i s x) !! j = Some t ->
    queue_ordered t /\
    Forall (fun y => start_time x <= start_time y) (sample_queue t).
Proof.
  intros (Hi & Hx & Hmin) Hord j t Hj. simpl in Hj.
  destruct (decide (i = j)) as [<- | Hij].
  - rewrite list_lookup_insert_eq in Hj by (now apply lookup_lt_Some in Hi).
    injection Hj as <-. specialize (Hord _ _ Hi).
    unfold queue_ordered in *. simpl.
    destruct (sample_queue s) as [|y q]; [done|].
    simpl in Hx. injection Hx as ->. simpl in *.
    apply StronglySorted_inv in Hord as [Hq Hall].
    split; [done|]. now apply (proj1 (Forall_map_le _ _ _)) in Hall.
  - rewrite list_lookup_insert_ne in Hj by done.
    specialize (Hord _ _ Hj). split; [done|].
    unfold queue_ordered in Hord.
    destruct (sample_queue t) as [|y q] eqn:Ht; [constructor|].
    destruct (Hmin j t y Hj) as [Hle _]; [now rewrite Ht|].
    simpl in Hord. apply StronglySorted_inv in Hord as [_ Hall].
    constructor; [done|]. apply (proj1 (Forall_map_le _ _ _)) in Hall.
    eapply Forall_impl; [exact Hall|]. simpl. intros z Hz. lia.
Qed.

Lemma playback_remaining_bounded (fuel : nat) :
  forall (p p' : TSMF_PRESENTATION A D) played bound,
    (forall j t, stream_list p !! j = Some t ->
       queue_ordered t /\
       Forall (fun y => bound <= start_time y) (sample_queue t)) ->
    playback_remaining fuel p = Some (p', played) ->
    StronglySorted Z.le (map (fun e => start_time e.1) played) /\
    Forall (fun e => bound <= start_time e.1) played.
Proof.
  induction fuel as [|fuel IH]; intros p p' played bound Hinv; [done|].
  rewrite playback_remaining_step.
  pose proof (pop_sample_earliest_or_nothing p) as Hpop.
  destruct (tsmf_presentation_pop_sample p) as [[x|] q].
  - destruct Hpop as (i & s & He & -> & ->).
    destruct (playback_remaining fuel _) as [[r pl]|] eqn:Hrec; [|done].
    intros [= <- <-].
    destruct (IH _ _ _ (start_time x)
                (fun j t Hj =>
                   ordered_after_pop p i s x He
                     (fun k u Hk => proj1 (Hinv k u Hk)) j t
                     (eq_ind _ (fun l => l !! j = Some t) Hj _
                        (proj1 (playback_streams (after_pop p i s x) s x))))
                Hrec) as [Hsorted Hall].
    assert (Hx : bound <= start_time x).
    { destruct He as (Hi & Hhd & _). destruct (Hinv _ _ Hi) as [_ Hb].
      destruct (sample_queue s); simpl in Hhd; [done|].
      injection Hhd as ->. now apply Forall_cons in Hb as [? _]. }
    split.
    + simpl. constructor; [done|]. apply (proj2 (Forall_map_le _ _ _)). exact Hall.
    + constructor; [done|].
      eapply Forall_impl; [exact Hall|]. simpl. intros e Hle. lia.
  - destruct (popped_stream p); intros [= <- <-]; split; constructor.
Qed.

Lemma playback_remaining_sorted (fuel : nat)
    (p p' : TSMF_PRESENTATION A D) played :
  (forall j t, stream_list p !! j = Some t -> queue_ordered t) ->
  playback_remaining fuel p = Some (p', played) ->
  StronglySorted Z.le (map (fun e => start_time e.1) played).
Proof.
  intros Hord. destruct fuel as [|fuel]; [done|].
  rewrite playback_remaining_step.
  pose proof (pop_sample_earliest_or_nothing p) as Hpop.
  destruct (tsmf_presentation_pop_sample p) as [[x|] q].
  - destruct Hpop as (i & s & He & -> & ->).
    destruct (playback_remaining fuel _) as [[r pl]|] eqn:Hrec; [|done].
    intros [= <- <-].
    destruct (playback_remaining_bounded fuel _ _ _ (start_time x)
                (fun j t Hj =>
                   ordered_after_pop p i s x He Hord j t
                     (eq_ind _ (fun l => l !! j = Some t) Hj _
                        (proj1 (playback_streams (after_pop p i s x) s x))))
                Hrec) as [Hsorted Hall].
    simpl. constructor; [done|]. apply (proj2 (Forall_map_le _ _ _)). exact Hall.
  - destruct (popped_stream p); intros [= <- <-]; constructor.
Qed.

(** Popping the head of one queue takes that sample from the queued ones. *)
Lemma all_queued_after_pop (p : TSMF_PRESENTATION A D) i s x :
  stream_list p !! i = Some s -> head (sample_queue s) = Some x ->
  all_queued p ≡ₚ x :: all_queued (after_pop p i s x).
Proof.
  unfold all_queued. simpl. generalize (stream_list p) as l.
  intros l. revert i. induction l as [|t l IH]; intros i Hi Hx; [done|].
  destruct i as [|i]; simpl in *.
  - injection Hi as ->. destruct (sample_queue s) as [|y q]; [done|].
    simpl in Hx. injection Hx as ->. done.
  - rewrite (IH i Hi Hx). symmetry. apply Permutation_middle.
Qed.

Lemma all_queued_nil (p : TSMF_PRESENTATION A D) :
  (forall j t, stream_list p !! j = Some t -> sample_queue t = []) ->
  all_queued p = [].
Proof.
  unfold all_queued. induction (stream_list p) as [|s l IH]; intros Hempty;
    [done|].
  simpl. rewrite (Hempty 0%nat s eq_refl). simpl.
  apply IH. intros j t Hj. apply (Hempty (S j) t Hj).
Qed.

(** The samples played and the samples left are the samples that were
    queued, and every queue lost a front part, played in its order. *)
Lemma playback_remaining_merges (fuel : nat) :
  forall (p p' : TSMF_PRESENTATION A D) played,
    playback_remaining fuel p = Some (p', played) ->
    map fst played ++ all_queued p' ≡ₚ all_queued p /\
    forall j t, stream_list p !! j = Some t ->
      exists t' taken,
        stream_list p' !! j = Some t' /\
        sample_queue t = taken ++ sample_queue t' /\
        taken `sublist_of` map fst played.
Proof.
  induction fuel as [|fuel IH]; intros p p' played; [done|].
  rewrite playback_remaining_step.
  pose proof (pop_sample_earliest_or_nothing p) as Hpop.
  destruct (tsmf_presentation_pop_sample p) as [[x|] q].
  - destruct Hpop as (i & s & (Hi & Hx & _) & -> & ->).
    destruct (playback_remaining fuel _) as [[r pl]|] eqn:Hrec; [|done].
    intros [= <- <-].
    destruct (IH _ _ _ Hrec) as [Hperm Hfront].
    assert (Hlist : stream_list (tsmf_sample_playback (after_pop p i s x) s x).1
                    = stream_list (after_pop p i s x))
      by apply playback_streams.
    split.
    + simpl. rewrite Hperm. unfold all_queued at 1. rewrite Hlist.
      symmetry. apply (all_queued_after_pop p i s x Hi Hx).
    + intros j t Hj. rewrite Hlist in Hfront. simpl in Hfront.
      destruct (decide (i = j)) as [<- | Hij].
      * assert (t = s) as -> by congruence.
        destruct (Hfront i (set_sample_queue s (tail (sample_queue s))))
          as (t' & taken & Ht' & Hq & Hsub).
        { apply list_lookup_insert_eq. now apply lookup_lt_Some in Hi. }
        exists t', (x :: taken). split; [done|].
        simpl in Hq. destruct (sample_queue s) as [|y rest]; [done|].
        simpl in Hx, Hq. injection Hx as ->. split.
        -- simpl. now rewrite Hq.
        -- simpl. now apply sublist_skip.
      * destruct (Hfront j t) as (t' & taken & Ht' & Hq & Hsub).
        { now rewrite list_lookup_insert_ne. }
        exists t', taken. split; [done | split; [done|]].
        simpl. now apply sublist_cons.
  - subst q. destruct (popped_stream p); intros [= <- <-].
    + split; [done|]. intros j u Hj. exists u, []. split; [done|].
      split; [done | apply sublist_nil_l].
    + split; [done|]. intros j u Hj. exists u, []. split; [done|].
      split; [done | apply sublist_nil_l].
Qed.

(** X5. The loop at end of stream merges the queues.  When every queue is
    in the order of the start times, the loop ends within as many turns as
    samples are queued, and one, and the samples it played are in the order
    of their start times.  They are, with the samples left in the queues,
    the samples that were queued; every queue lost a front part, whose
    samples were played in the order of the queue.  Without an audio sink
    and with every stream ended, the samples played are all the samples
    that were queued. *)
Theorem playback_remaining_ordered (p : TSMF_PRESENTATION A D) :
  (forall j t, stream_list p !! j = Some t -> queue_ordered t) ->
  exists p' played,
    playback_remaining (S (queued p)) p = Some (p', played) /\
    StronglySorted Z.le (map (fun e => start_time e.1) played) /\
    map fst played ++ all_queued p' ≡ₚ all_queued p /\
    (forall j t, stream_list p !! j = Some t ->
       exists t' taken,
         stream_list p' !! j = Some t' /\
         sample_queue t = taken ++ sample_queue t' /\
         taken `sublist_of` map fst played) /\
    (audio p = None ->
     (forall j t, stream_list p !! j = Some t -> stream_eos t <> 0) ->
     all_queued p' = [] /\ map fst played ≡ₚ all_queued p).
Proof.
  intros Hord.
  destruct (playback_remaining_ends (S (queued p)) p)
    as (p' & played & Hrun & Hend & _); [lia|].
  exists p', played. split; [exact Hrun|].
  split; [exact (playback_remaining_sorted _ _ _ _ Hord Hrun)|].
  destruct (playback_remaining_merges _ _ _ _ Hrun) as [Hperm Hfront].
  split; [exact Hperm | split; [exact Hfront|]].
  intros Haudio Heos.
  assert (Hnil : all_queued p' = []).
  { apply all_queued_nil.
    exact (playback_remaining_drained _ _ _ _ Haudio Heos Hrun Hend). }
  split; [exact Hnil|]. rewrite Hnil, app_nil_r in Hperm. exact Hperm.
Qed.

End PlaybackRemaining.

(** ** The registry and the stream list: lookup, creation, removal *)

Section Lookup.
Context {A D : Type} `{!TSMFConstants}.

Lemma byte_eqb_refl (x : byte) : Byte.eqb x x = true.
Proof. now apply Byte.byte_dec_lb. Qed.

Lemma byte_eqb_sym (x y : byte) : Byte.eqb x y = Byte.eqb y x.
Proof.
  destruct (Byte.eqb x y) eqn:Hxy.
  - apply Byte.byte_dec_bl in Hxy. subst. symmetry. apply byte_eqb_refl.
  - destruct (Byte.eqb y x) eqn:Hyx; [|done].
    apply Byte.byte_dec_bl in Hyx. subst. now rewrite byte_eqb_refl in Hxy.
Qed.

Lemma mem_equal_sym (a b : list byte) (n : nat) :
  mem_equal a b n = mem_equal b a n.
Proof.
  revert a b. induction n as [|n IH]; intros [|x a] [|y b]; simpl; try done.
  now rewrite byte_eqb_sym, IH.
Qed.

Lemma mem_equal_take_r (a b : list byte) (n : nat) :
  mem_equal a (take n b) n = mem_equal a b n.
Proof.
  revert a b. induction n as [|n IH]; intros [|x a] [|y b]; simpl; try done.
  now rewrite IH.
Qed.

Lemma mem_equal_take_l (a b : list byte) (n : nat) :
  mem_equal (take n a) b n = mem_equal a b n.
Proof. now rewrite mem_equal_sym, mem_equal_take_r, mem_equal_sym. Qed.

Lemma mem_equal_refl (a : list byte) (n : nat) : mem_equal a a n = true.
Proof.
  revert a. induction n as [|n IH]; intros [|x a]; simpl; try done.
  now rewrite byte_eqb_refl, IH.
Qed.

Lemma find_presentation_from_spec (l : list (TSMF_PRESENTATION A D))
    (k : nat) (guid : list byte) :
  match find_presentation_from l k guid with
  | Some i =>
      exists j p, i = (k + j)%nat /\ l !! j = Some p /\
        mem_equal (presentation_id p) guid GUID_SIZE = true /\
        forall j' q, (j' < j)%nat -> l !! j' = Some q ->
          mem_equal (presentation_id q) guid GUID_SIZE = false
  | None =>
      forall j q, l !! j = Some q ->
        mem_equal (presentation_id q) guid GUID_SIZE = false
  end.
Proof.
  revert k. induction l as [|p l IH]; intros k; simpl; [done|].
  destruct (mem_equal (presentation_id p) guid GUID_SIZE) eqn:Hp.
  - exists 0%nat, p. split; [lia | split; [done | split; [done|]]].
    intros j' q Hlt. lia.
  - specialize (IH (S k)).
    destruct (find_presentation_from l (S k) guid) as [i|].
    + destruct IH as (j & q & -> & Hj & Hq & Hfirst).
      exists (S j), q. split; [lia | split; [done | split; [done|]]].
      intros [|j'] r Hlt Hr; simpl in Hr; [congruence|].
      eapply Hfirst; [|exact Hr]. lia.
    + intros [|j] q Hq; simpl in Hq; [congruence | eauto].
Qed.

Lemma find_stream_from_spec (l : list (TSMF_STREAM D)) (k : nat) (id : Z) :
  match find_stream_from l k id with
  | Some i =>
      exists j s, i = (k + j)%nat /\ l !! j = Some s /\ stream_id s = id /\
        forall j' t, (j' < j)%nat -> l !! j' = Some t -> stream_id t <> id
  | None => forall j t, l !! j = Some t -> stream_id t <> id
  end.
Proof.
  revert k. induction l as [|s l IH]; intros k; simpl; [done|].
  destruct (Z.eqb_spec (stream_id s) id) as [Hs | Hs].
  - exists 0%nat, s. split; [lia | split; [done | split; [done|]]].
    intros j' q Hlt. lia.
  - specialize (IH (S k)).
    destruct (find_stream_from l (S k) id) as [i|].
    + destruct IH as (j & t & -> & Hj & Ht & Hfirst).
      exists (S j), t. split; [lia | split; [done | split; [done|]]].
      intros [|j'] r Hlt Hr; simpl in Hr; [congruence|].
      eapply Hfirst; [|exact Hr]. lia.
    + intros [|j] t Ht; simpl in Ht; [congruence | eauto].
Qed.

(** X6. Both lookups return the first entry with the id: a presentation
    whose id has the [GUID_SIZE] bytes of [guid], a stream whose id is [id],
    with no such entry before it; they return NULL exactly when no entry has
    the id. *)
Theorem find_by_id_first_match (registry : list (TSMF_PRESENTATION A D))
    (guid : list byte) (p : TSMF_PRESENTATION A D) (id : Z) :
  match tsmf_presentation_find_by_id registry guid with
  | Some i =>
      (exists q, registry !! i = Some q /\
                 mem_equal (presentation_id q) guid GUID_SIZE = true) /\
      (forall j q, (j < i)%nat -> registry !! j = Some q ->
                   mem_equal (presentation_id q) guid GUID_SIZE = false)
  | None =>
      forall j q, registry !! j = Some q ->
                  mem_equal (presentation_id q) guid GUID_SIZE = false
  end /\
  match tsmf_stream_find_by_id p id with
  | Some i =>
      (exists s, stream_list p !! i = Some s /\ stream_id s = id) /\
      (forall j t, (j < i)%nat -> stream_list p !! j = Some t ->
                   stream_id t <> id)
  | None => forall j t, stream_list p !! j = Some t -> stream_id t <> id
  end.
Proof.
  split.
  - pose proof (find_presentation_from_spec registry 0 guid) as Hspec.
    unfold tsmf_presentation_find_by_id.
    destruct (find_presentation_from registry 0 guid) as [i|]; [|done].
    destruct Hspec as (j & q & -> & Hj & Hq & Hfirst). simpl. eauto.
  - pose proof (find_stream_from_spec (stream_list p) 0 id) as Hspec.
    unfold tsmf_stream_find_by_id.
    destruct (find_stream_from (stream_list p) 0 id) as [i|]; [|done].
    destruct Hspec as (j & s & -> & Hj & Hs & Hfirst). simpl. eauto.
Qed.

Lemma find_presentation_from_app (l : list (TSMF_PRESENTATION A D)) k guid q :
  find_presentation_from (l ++ [q]) k guid =
  match find_presentation_from l k guid with
  | Some i => Some i
  | None =>
      if mem_equal (presentation_id q) guid GUID_SIZE
      then Some (k + length l)%nat else None
  end.
Proof.
  revert k. induction l as [|p l IH]; intros k; simpl.
  - rewrite Nat.add_0_r. reflexivity.
  - destruct (mem_equal (presentation_id p) guid GUID_SIZE); [done|].
    rewrite IH. destruct (find_presentation_from l (S k) guid); [done|].
    now rewrite Nat.add_succ_r.
Qed.

Lemma find_stream_from_app (l : list (TSMF_STREAM D)) k id s :
  find_stream_from (l ++ [s]) k id =
  match find_stream_from l k id with
  | Some i => Some i
  | None => if stream_id s =? id then Some (k + length l)%nat else None
  end.
Proof.
  revert k. induction l as [|t l IH]; intros k; simpl.
  - rewrite Nat.add_0_r. reflexivity.
  - destruct (stream_id t =? id); [done|].
    rewrite IH. destruct (find_stream_from l (S k) id); [done|].
    now rewrite Nat.add_succ_r.
Qed.

(** X7. Creating a presentation with an id that the registry does not hold
    appends a presentation with no streams, clock 0 and no sink, and returns
    it; from then on the id is found at that place, every id that was found
    is found where it was, and a second creation with the id is rejected. *)
Theorem presentation_new_registers (registry : list (TSMF_PRESENTATION A D))
    (guid : list byte) (pChannelCallback : IWTSVirtualChannelCallback) :
  tsmf_presentation_find_by_id registry guid = None ->
  let registry' := registry ++ [presentation_init guid pChannelCallback] in
  tsmf_presentation_new registry guid pChannelCallback =
    (Some (length registry), registry') /\
  tsmf_presentation_find_by_id registry' guid = Some (length registry) /\
  (forall g i, tsmf_presentation_find_by_id registry g = Some i ->
               tsmf_presentation_find_by_id registry' g = Some i) /\
  (forall cb, tsmf_presentation_new registry' guid cb = (None, registry')) /\
  (stream_list (presentation_init (A:=A) (D:=D) guid pChannelCallback) = [] /\
   playback_time (presentation_init (A:=A) (D:=D) guid pChannelCallback) = 0 /\
   audio (presentation_init (A:=A) (D:=D) guid pChannelCallback) = None).
Proof.
  intros Hnone registry'.
  assert (Hfound : tsmf_presentation_find_by_id registry' guid =
                   Some (length registry)).
  { unfold tsmf_presentation_find_by_id, registry' in *.
    rewrite find_presentation_from_app, Hnone. simpl.
    now rewrite mem_equal_take_l, mem_equal_refl. }
  split; [|split; [done | split; [|split; [|done]]]].
  - unfold tsmf_presentation_new. now rewrite Hnone.
  - intros g i Hg. unfold tsmf_presentation_find_by_id, registry' in *.
    now rewrite find_presentation_from_app, Hg.
  - intros cb. unfold tsmf_presentation_new. now rewrite Hfound.
Qed.

(** X8. [tsmf_presentation_new] keeps the ids of the registry pairwise
    different. *)
Theorem presentation_new_unique (registry : list (TSMF_PRESENTATION A D))
    (guid : list byte) (pChannelCallback : IWTSVirtualChannelCallback) :
  registry_unique registry ->
  registry_unique (tsmf_presentation_new registry guid pChannelCallback).2.
Proof.
  intros Huniq. unfold tsmf_presentation_new.
  pose proof (find_presentation_from_spec registry 0 guid) as Hspec.
  unfold tsmf_presentation_find_by_id.
  destruct (find_presentation_from registry 0 guid) as [k|]; [done|]. simpl.
  intros i j p q Hi Hj Hij.
  apply lookup_snoc_Some in Hi as [[Hil Hi] | [-> <-]];
    apply lookup_snoc_Some in Hj as [[Hjl Hj] | [-> <-]].
  - eauto.
  - simpl. rewrite mem_equal_take_r. eauto.
  - simpl. rewrite mem_equal_take_l, mem_equal_sym. eauto.
  - done.
Qed.

(** X9. Creating a stream with an id that the presentation does not hold
    appends an empty stream with that id, without decoder, and returns it;
    the id is then found at that place and every id that was found is found
    where it was.  In every case the stream ids stay pairwise different and
    nothing else of the presentation changes. *)
Theorem stream_new_registers (p : TSMF_PRESENTATION A D) (id : Z) :
  (tsmf_stream_find_by_id p id = None ->
   let p' := set_stream_list p (stream_list p ++ [stream_init id]) in
   tsmf_stream_new p id = (Some (length (stream_list p)), p') /\
   tsmf_stream_find_by_id p' id = Some (length (stream_list p)) /\
   stream_by_id p' id = Some (stream_init id) /\
   (forall id' i, tsmf_stream_find_by_id p id' = Some i ->
                  tsmf_stream_find_by_id p' id' = Some i)) /\
  (NoDup (stream_ids p) -> NoDup (stream_ids (tsmf_stream_new p id).2)) /\
  set_stream_list (tsmf_stream_new p id).2 (stream_list p) = p.
Proof.
  split; [|split].
  - intros Hnone p'.
    assert (Hfound : tsmf_stream_find_by_id p' id = Some (length (stream_list p))).
    { unfold tsmf_stream_find_by_id in *. simpl.
      rewrite find_stream_from_app, Hnone. simpl. now rewrite Z.eqb_refl. }
    split; [|split; [done | split]].
    + unfold tsmf_stream_new. now rewrite Hnone.
    + unfold stream_by_id. rewrite Hfound. simpl.
      apply lookup_snoc_Some. now right.
    + intros id' i Hi. unfold tsmf_stream_find_by_id in *. simpl.
      now rewrite find_stream_from_app, Hi.
  - intros Hnodup. unfold tsmf_stream_new.
    pose proof (find_stream_from_spec (stream_list p) 0 id) as Hspec.
    unfold tsmf_stream_find_by_id.
    destruct (find_stream_from (stream_list p) 0 id) as [k|]; [done|].
    unfold stream_ids in *. simpl. rewrite fmap_app. simpl.
    apply NoDup_app. split; [done | split; [|apply NoDup_singleton]].
    intros x Hx Hin. apply list_elem_of_singleton in Hin. subst x.
    apply list_elem_of_fmap in Hx as (s & Hid & Hs).
    apply list_elem_of_lookup_1 in Hs as [j Hj].
    apply Hspec in Hj. congruence.
  - unfold tsmf_stream_new. destruct (tsmf_stream_find_by_id p id); simpl.
    + apply set_stream_list_same.
    + now destruct p.
Qed.

Lemma delete_snoc {X : Type} (l : list X) (x : X) :
  delete (length l) (l ++ [x]) = l.
Proof.
  rewrite (delete_middle l [] x). apply app_nil_r.
Qed.

Lemma stream_by_id_unique (p : TSMF_PRESENTATION A D) j s :
  NoDup (stream_ids p) -> stream_list p !! j = Some s ->
  tsmf_stream_find_by_id p (stream_id s) = Some j /\
  stream_by_id p (stream_id s) = Some s.
Proof.
  intros Hnodup Hj. unfold stream_by_id.
  pose proof (find_stream_from_spec (stream_list p) 0 (stream_id s)) as Hspec.
  unfold tsmf_stream_find_by_id.
  destruct (find_stream_from (stream_list p) 0 (stream_id s)) as [i|].
  - destruct Hspec as (k & t & -> & Hk & Ht & _). simpl.
    assert (k = j) as ->.
    { eapply (NoDup_lookup _ _ _ _ Hnodup); unfold stream_ids;
        rewrite list_lookup_fmap; [rewrite Hk | rewrite Hj]; simpl;
        [now rewrite Ht | done]. }
    done.
  - now apply Hspec in Hj.
Qed.

Lemma stream_by_id_None (p : TSMF_PRESENTATION A D) id :
  (forall j t, stream_list p !! j = Some t -> stream_id t <> id) ->
  tsmf_stream_find_by_id p id = None.
Proof.
  intros Hno.
  pose proof (find_stream_from_spec (stream_list p) 0 id) as Hspec.
  unfold tsmf_stream_find_by_id.
  destruct (find_stream_from (stream_list p) 0 id) as [i|]; [|done].
  destruct Hspec as (k & t & _ & Hk & Ht & _). now apply Hno in Hk.
Qed.

(** X10. Freeing the stream that was just created gives back the
    presentation as it was.  With pairwise different stream ids, freeing a
    stream makes its id unknown, so that it can be created again, leaves
    every other id with the stream it had, and keeps the ids pairwise
    different. *)
Theorem stream_free_removes (p : TSMF_PRESENTATION A D) :
  (forall id, tsmf_stream_find_by_id p id = None ->
     tsmf_stream_free (tsmf_stream_new p id).2 (length (stream_list p)) = p) /\
  (forall i s,
     NoDup (stream_ids p) -> stream_list p !! i = Some s ->
     tsmf_stream_find_by_id (tsmf_stream_free p i) (stream_id s) = None /\
     (tsmf_stream_new (tsmf_stream_free p i) (stream_id s)).1 <> None /\
     (forall id, id <> stream_id s ->
        stream_by_id (tsmf_stream_free p i) id = stream_by_id p id) /\
     NoDup (stream_ids (tsmf_stream_free p i))).
Proof.
  split.
  - intros id Hnone. unfold tsmf_stream_new. rewrite Hnone. simpl.
    unfold tsmf_stream_free. simpl.
    rewrite (proj2 (lookup_snoc_Some _ _ _ _) (or_intror (conj eq_refl eq_refl))).
    simpl. rewrite delete_snoc.
    transitivity (set_stream_list p (stream_list p));
      [reflexivity | apply set_stream_list_same].
  - intros i s Hnodup Hi.
    assert (Hfree : stream_list (tsmf_stream_free p i) = delete i (stream_list p)).
    { unfold tsmf_stream_free. now rewrite Hi. }
    assert (Hnodup' : NoDup (stream_ids (tsmf_stream_free p i))).
    { unfold stream_ids. rewrite Hfree, list_fmap_delete.
      eapply sublist_NoDup; [exact Hnodup | apply sublist_delete]. }
    assert (Hfrom : forall j t, delete i (stream_list p) !! j = Some t ->
              exists j', j' <> i /\ stream_list p !! j' = Some t).
    { intros j t Hj. destruct (decide (j < i)%nat) as [Hlt | Hge].
      - rewrite list_lookup_delete_lt in Hj by done. exists j. split; [lia | done].
      - rewrite list_lookup_delete_ge in Hj by lia. exists (S j). split; [lia | done]. }
    assert (Hgone : tsmf_stream_find_by_id (tsmf_stream_free p i) (stream_id s)
                    = None).
    { apply stream_by_id_None. rewrite Hfree. intros j t Hj Hid.
      destruct (Hfrom j t Hj) as (j' & Hne & Hj').
      apply Hne. eapply (NoDup_lookup _ _ _ _ Hnodup); unfold stream_ids;
        rewrite list_lookup_fmap; [rewrite Hj' | rewrite Hi]; simpl;
        [now rewrite Hid | done]. }
    split; [done | split; [|split; [|done]]].
    + unfold tsmf_stream_new. now rewrite Hgone.
    + intros id Hid.
      pose proof (find_stream_from_spec (stream_list p) 0 id) as Hspec.
      unfold stream_by_id at 2. unfold tsmf_stream_find_by_id.
      destruct (find_stream_from (stream_list p) 0 id) as [k|].
      * destruct Hspec as (j & t & -> & Hj & Ht & _). simpl. rewrite Hj.
        assert (Hji : j <> i).
        { intros ->. rewrite Hi in Hj. injection Hj as ->. done. }
        assert (Hin : exists j', stream_list (tsmf_stream_free p i) !! j' = Some t).
        { rewrite Hfree. destruct (decide (j < i)%nat) as [Hlt | Hge].
          - exists j. now rewrite list_lookup_delete_lt.
          - exists (j - 1)%nat. rewrite list_lookup_delete_ge by lia.
            now replace (S (j - 1)) with j by lia. }
        destruct Hin as [j' Hj'].
        rewrite <- Ht.
        apply (stream_by_id_unique _ _ _ Hnodup' Hj').
      * unfold stream_by_id. rewrite stream_by_id_None; [done|].
        rewrite Hfree. intros j t Hj.
        destruct (Hfrom j t Hj) as (j' & _ & Hj'). eauto.
Qed.

End Lookup.

(** ** Video frames and the last delivered region *)

Section Region.
Context {A D : Type} `{!TSMFConstants} `{!TSMFMain}.

(** X11. Restoring the last video frame emits one redraw of the last
    delivered region when its width and height are not 0, and forgets the
    region (sets it to 0); otherwise it does nothing.  Restoring again does
    nothing: the same region is never redrawn twice. *)
Theorem restore_last_video_frame_once (p : TSMF_PRESENTATION A D) :
  let '(p1, effects) := tsmf_presentation_restore_last_video_frame p in
  (last_width p <> 0 /\ last_height p <> 0 ->
   effects = redraw_effects p /\
   (last_x p1, last_y p1, last_width p1, last_height p1) = (0, 0, 0, 0)) /\
  (last_width p = 0 \/ last_height p = 0 -> p1 = p /\ effects = []) /\
  tsmf_presentation_restore_last_video_frame p1 = (p1, []) /\
  (output_x p1, output_y p1, output_width p1, output_height p1) =
  (output_x p, output_y p, output_width p, output_height p).
Proof.
  unfold tsmf_presentation_restore_last_video_frame, redraw_effects.
  destruct (Z.eqb_spec (last_width p) 0) as [Hw | Hw];
    destruct (Z.eqb_spec (last_height p) 0) as [Hh | Hh]; simpl.
  - split; [intros [? ?]; done|]. split; [done|]. split; [|done].
    destruct (Z.eqb_spec (last_width p) 0); done.
  - split; [intros [? ?]; done|]. split; [done|]. split; [|done].
    destruct (Z.eqb_spec (last_width p) 0); done.
  - split; [intros [? ?]; done|]. split; [done|]. split; [|done].
    destruct (Z.eqb_spec (last_width p) 0); [done|].
    destruct (Z.eqb_spec (last_height p) 0); done.
  - split; [|split; [intros [? | ?]; done | done]].
    intros _. split; [|done].
    destruct (tsmf_push_event _ _ =? 0); reflexivity.
Qed.

(** X12. After a frame was delivered, the next frame comes without a
    redraw as long as the target region is the same.  When the target
    region was moved in between and the old one had a width and a height,
    the next frame comes after exactly one redraw, that of the old target
    region; when the old one had no width or no height, no redraw comes. *)
Theorem video_frames_and_geometry (p : TSMF_PRESENTATION A D)
    (s1 s2 : TSMF_STREAM D) (x1 x2 : TSMF_SAMPLE) (x y w h : Z) :
  data x1 <> None -> data x2 <> None ->
  let p1 := (tsmf_sample_playback_video p s1 x1).1.1 in
  let moved := tsmf_presentation_set_geometry_info p1 x y w h in
  (tsmf_sample_playback_video p1 s2 x2).2 = frame_effects p1 s2 x2 /\
  ((x, y, w, h) <> (output_x p, output_y p, output_width p, output_height p) ->
   output_width p <> 0 -> output_height p <> 0 ->
   exists rest,
     (tsmf_sample_playback_video moved s2 x2).2 =
     EvPush (channel_callback p)
       (RD_REDRAW_EVENT (output_x p) (output_y p) (output_width p)
          (output_height p)) :: rest /\
     existsb is_redraw rest = false /\
     exists tail, rest = tail ++ frame_effects moved s2 x2) /\
  (output_width p = 0 \/ output_height p = 0 ->
   (tsmf_sample_playback_video moved s2 x2).2 = frame_effects moved s2 x2).
Proof.
  intros H1 H2 p1 moved.
  destruct (data x1) as [b1|] eqn:Hd1; [|done].
  destruct (data x2) as [b2|] eqn:Hd2; [|done].
  assert (Hp1 : p1 = set_last p (output_x p) (output_y p) (output_width p)
                       (output_height p)).
  { unfold p1. now rewrite (playback_video_payload p s1 x1 b1 Hd1). }
  split; [|split].
  - rewrite (playback_video_payload p1 s2 x2 b2 Hd2). simpl.
    rewrite Hp1. simpl. rewrite !Z.eqb_refl. reflexivity.
  - intros Hmoved Hw Hh.
    rewrite (playback_video_payload moved s2 x2 b2 Hd2). simpl.
    unfold moved, tsmf_presentation_set_geometry_info. rewrite Hp1. simpl.
    assert (Hdiff : negb (output_x p =? x) || negb (output_y p =? y)
                    || negb (output_width p =? w)
                    || negb (output_height p =? h) = true).
    { destruct (Z.eqb_spec (output_x p) x), (Z.eqb_spec (output_y p) y),
        (Z.eqb_spec (output_width p) w), (Z.eqb_spec (output_height p) h);
        simpl; try done.
      exfalso. apply Hmoved. congruence. }
    rewrite Hdiff. simpl.
    destruct (Z.eqb_spec (output_width p) 0); [done|].
    destruct (Z.eqb_spec (output_height p) 0); [done|]. simpl.
    unfold redraw_effects. simpl. eexists. split; [reflexivity|]. split.
    + rewrite existsb_app, frame_effects_no_redraw.
      now destruct (tsmf_push_event _ _ =? 0).
    + eauto.
  - intros Hzero.
    rewrite (playback_video_payload moved s2 x2 b2 Hd2). simpl.
    unfold moved, tsmf_presentation_set_geometry_info. rewrite Hp1. simpl.
    assert (Hnone : negb (output_width p =? 0) && negb (output_height p =? 0)
                    = false).
    { destruct Hzero as [-> | ->]; simpl; [done | apply andb_false_r]. }
    rewrite Hnone, andb_false_r. reflexivity.
Qed.

End Region.

(** ** Start, flush and format *)

Section Lifecycle.
Context {A D : Type} `{!ITSMFAudioDevice A} `{!TSMFConstants} `{!TSMFMain}
  `{!TSMFCodec D}.

(** X13. Starting a presentation that is not running marks it running,
    clears the exit request, sets the clock to 0 and creates the playback
    thread; starting a running presentation changes nothing and creates no
    thread.  So a start that follows a start never creates a second
    thread. *)
Theorem presentation_start_once (p : TSMF_PRESENTATION A D) :
  let '(p1, created) := tsmf_presentation_start p in
  (thread_status p = 0 ->
   created = true /\ thread_status p1 = 1 /\ thread_exit p1 = 0 /\
   playback_time p1 = 0 /\ stream_list p1 = stream_list p /\ eos p1 = eos p) /\
  (thread_status p <> 0 -> created = false /\ p1 = p) /\
  tsmf_presentation_start p1 = (p1, false).
Proof.
  unfold tsmf_presentation_start.
  destruct (Z.eqb_spec (thread_status p) 0) as [Hs | Hs]; simpl.
  - split; [done | split; [done|]]. reflexivity.
  - split; [done | split; [done|]].
    destruct (Z.eqb_spec (thread_status p) 0); done.
Qed.


(** X15. Setting an audio format records the sample rate and the channels
    of the format in the presentation, and its bits per sample, or 16 when
    the format gives 0: the recorded value is never 0.  A format of another
    major type leaves the three values as they were.  In both cases the
    queue, the eos flag and the id of the stream stay, and it gets the
    decoder that was loaded, or none. *)
Theorem stream_set_format_records (p : TSMF_PRESENTATION A D) (i : nat)
    (s : TSMF_STREAM D) (name pMediaType : list byte) :
  stream_list p !! i = Some s ->
  let mediatype := tsmf_codec_parse_media_type pMediaType in
  let p' := tsmf_stream_set_format p i name pMediaType in
  (MajorType mediatype = TSMF_MAJOR_TYPE_AUDIO ->
   TSMF_MAJOR_TYPE_AUDIO <> TSMF_MAJOR_TYPE_VIDEO ->
   sample_rate p' = SamplesPerSecond_Numerator mediatype /\
   channels p' = Channels mediatype /\
   bits_per_sample p' <> 0 /\
   (BitsPerSample mediatype = 0 -> bits_per_sample p' = 16) /\
   (BitsPerSample mediatype <> 0 ->
    bits_per_sample p' = BitsPerSample mediatype)) /\
  (MajorType mediatype <> TSMF_MAJOR_TYPE_AUDIO ->
   (sample_rate p', channels p', bits_per_sample p') =
   (sample_rate p, channels p, bits_per_sample p)) /\
  stream_list p' =
  <[i := Build_TSMF_STREAM (stream_id s) (tsmf_load_decoder name mediatype)
           (MajorType mediatype) (stream_eos s) (Width mediatype)
           (Height mediatype) (sample_queue s)]> (stream_list p) /\
  playback_time p' = playback_time p /\ eos p' = eos p.
Proof.
  intros Hi mediatype p'. unfold p', tsmf_stream_set_format. rewrite Hi.
  fold mediatype. split; [|split; [|split; [|split]]].
  - intros Haudio Hne. rewrite Haudio.
    destruct (Z.eqb_spec TSMF_MAJOR_TYPE_AUDIO TSMF_MAJOR_TYPE_VIDEO); [done|].
    rewrite Z.eqb_refl. simpl. split; [done | split; [done|]].
    destruct (Z.eqb_spec (BitsPerSample mediatype) 0); split; done.
  - intros Hother.
    destruct (MajorType mediatype =? TSMF_MAJOR_TYPE_VIDEO); [done|].
    destruct (Z.eqb_spec (MajorType mediatype) TSMF_MAJOR_TYPE_AUDIO); done.
  - destruct (MajorType mediatype =? TSMF_MAJOR_TYPE_VIDEO); [done|].
    destruct (MajorType mediatype =? TSMF_MAJOR_TYPE_AUDIO); done.
  - destruct (MajorType mediatype =? TSMF_MAJOR_TYPE_VIDEO); [done|].
    destruct (MajorType mediatype =? TSMF_MAJOR_TYPE_AUDIO); done.
  - destruct (MajorType mediatype =? TSMF_MAJOR_TYPE_VIDEO); [done|].
    destruct (MajorType mediatype =? TSMF_MAJOR_TYPE_AUDIO); done.
Qed.

(** X16. When no decoder can be loaded for the format, every sample that
    is pushed on the stream afterwards is dropped: any sequence of pushes
    leaves the presentation as the format call left it. *)
Theorem stream_set_format_unsupported (p : TSMF_PRESENTATION A D) (i : nat)
    (name pMediaType : list byte) (l : list push_args) :
  tsmf_load_decoder name (tsmf_codec_parse_media_type pMediaType) = None ->
  let p' := tsmf_stream_set_format p i name pMediaType in
  run (map (OpPush i) l) p' = p'.
Proof.
  intros Hload p'.
  assert (Hpush : forall a, exec (OpPush i a) p' = p').
  { intros a. simpl. unfold push_sample_at.
    destruct (stream_list p' !! i) as [t|] eqn:Ht; [|done].
    assert (Hdec : decoder t = None).
    { unfold p', tsmf_stream_set_format in Ht.
      destruct (stream_list p !! i) as [s|] eqn:Hs.
      - rewrite Hload in Ht. simpl in Ht.
        assert (Hlt : (i < length (stream_list p))%nat)
          by now apply lookup_lt_Some in Hs.
        destruct (MajorType _ =? TSMF_MAJOR_TYPE_VIDEO);
          [|destruct (MajorType _ =? TSMF_MAJOR_TYPE_AUDIO)];
          simpl in Ht; rewrite list_lookup_insert_eq in Ht by done;
          now injection Ht as <-.
      - congruence. }
    unfold tsmf_stream_push_sample. rewrite Hdec.
    rewrite list_insert_id by done. apply set_stream_list_same. }
  induction l as [|a l IH]; [done|].
  unfold run in *. cbn [map fold_left]. now rewrite Hpush.
Qed.

End Lifecycle.

(** ** The FFmpeg decoder between pushes *)

Section DecoderOwnership.
Context {C : Type} `{!AVCodec C}.

(** X17. When [Decode] of the FFmpeg decoder fails, the decoder holds no
    output: the [GetDecodedData] that follows returns NULL and size 0, also
    when the output of the unit before was never taken.  It fails only on
    the video path or for an unknown media type. *)
Theorem decode_failure_leaves_nothing (m : TSMFFFmpegDecoder C)
    (data : list byte) (extensions : Z) :
  (tsmf_ffmpeg_decode m data extensions).1 <> 0 ->
  (tsmf_ffmpeg_get_decoded_data (tsmf_ffmpeg_decode m data extensions).2).1
    = (None, 0) /\
  decoded_data (tsmf_ffmpeg_decode m data extensions).2 = None /\
  media_type m <> AVMEDIA_TYPE_AUDIO.
Proof.
  intros Hret.
  destruct (decode_failure_state m data extensions Hret) as (Hnone & Hsize & Hty).
  unfold tsmf_ffmpeg_get_decoded_data. simpl. now rewrite Hnone, Hsize.
Qed.

(** X18. A stream that decodes with the FFmpeg decoder never leaves a
    decoded buffer in the decoder: after every push, accepted or dropped,
    the decoder holds no buffer and size 0.  What was decoded is in the
    sample that was queued, or freed with the next [Decode]. *)
Theorem push_leaves_decoder_empty (s : TSMF_STREAM (TSMFFFmpegDecoder C))
    (m : TSMFFFmpegDecoder C) (a : push_args) :
  decoder s = Some (ffmpeg_decoder m) ->
  exists m',
    decoder (push s a) = Some (ffmpeg_decoder m') /\
    decoded_data m' = None /\ decoded_size m' = 0 /\
    (push_succeeds s a = true ->
     exists x,
       sample_queue (push s a) = sample_queue s ++ [x] /\
       data x = decoded_data (tsmf_ffmpeg_decode m (pa_data a) (pa_extensions a)).2 /\
       data_size x =
         decoded_size (tsmf_ffmpeg_decode m (pa_data a) (pa_extensions a)).2) /\
    (push_succeeds s a = false -> sample_queue (push s a) = sample_queue s).
Proof.
  intros Hdec. unfold push, push_succeeds, tsmf_stream_push_sample.
  rewrite Hdec. simpl.
  pose proof (decode_failure_state m (pa_data a) (pa_extensions a)) as Hfail.
  destruct (tsmf_ffmpeg_decode m (pa_data a) (pa_extensions a)) as [ret m1].
  simpl in *. destruct (Z.eqb_spec ret 0) as [-> | Hret]; simpl.
  - exists (set_decoded m1 None 0). split; [done | split; [done | split; [done|]]].
    split; [|done]. intros _. eexists. split; [reflexivity | done].
  - destruct (Hfail Hret) as (Hnone & Hsize & _).
    exists m1. split; [done | split; [done | split; [done|]]].
    split; [done|]. done.
Qed.

End DecoderOwnership.

(** ** The FFmpeg decoder: sizes *)

Section DecoderSizes.
Context {C : Type} `{!AVCodec C}.

Lemma wrap32_add_l (a b : Z) : wrap32 (wrap32 a + b) = wrap32 (a + b).
Proof. unfold wrap32. apply Z.add_mod_idemp_l. lia. Qed.

Lemma wrap32_idemp (a : Z) : wrap32 (wrap32 a) = wrap32 a.
Proof. unfold wrap32. apply Z.mod_mod. lia. Qed.

Lemma decode_audio_loop_size :
  (forall c room data size len frame_size pcm c',
     avcodec_decode_audio3 c room data size = ((len, frame_size, pcm), c') ->
     0 < frame_size -> Z.of_nat (length pcm) = frame_size) ->
  forall (fuel : nat) (m m' : TSMFFFmpegDecoder C) pad_data offset src_size,
    size_matches m ->
    decode_audio_loop fuel m pad_data offset src_size = Some m' ->
    size_matches m'.
Proof.
  intros Hcodec. induction fuel as [|fuel IH];
    intros m m' pad_data offset src_size Hm; cbn [decode_audio_loop].
  - destruct (src_size >? 0); [done|]. now intros [= <-].
  - destruct (src_size >? 0); [|now intros [= <-]].
    assert (Hspace : size_matches (ensure_space m)).
    { unfold size_matches, ensure_space in *.
      now destruct (wrap32 (decoded_size_max m - decoded_size m)
                    <? AVCODEC_MAX_AUDIO_FRAME_SIZE). }
    destruct (avcodec_decode_audio3 _ _ _ _)
      as [[[len frame_size] pcm] c] eqn:Hcall.
    destruct (Z.leb_spec len 0) as [Hneg | Hgot]; [now intros [= <-]|].
    destruct (Z.leb_spec frame_size 0) as [Hnone | Hframe];
      [now intros [= <-]|].
    cbn [orb]. apply IH.
    unfold size_matches in *. simpl.
    rewrite length_app, Nat2Z.inj_add, (Hcodec _ _ _ _ _ _ _ _ Hcall Hframe).
    rewrite Hspace. apply wrap32_add_l.
Qed.

(** X19. With a codec that writes as many bytes as it reports (a picture
    of the size of [avpicture_get_size], audio output of [frame_size]
    bytes), whenever [Decode] returns, the size that the following
    [GetDecodedData] returns is the number of bytes in the buffer it returns,
    as an [uint32], and 0 when it returns NULL.  [Decode] returns for every
    unit when the codec consumes no more than it is offered. *)
Theorem decoded_size_is_buffer_length (m : TSMFFFmpegDecoder C)
    (data : list byte) (extensions : Z) :
  (forall c size, 0 <= size ->
     Z.of_nat (length (av_picture_copy c size)) = size) ->
  (forall c room src size len frame_size pcm c',
     avcodec_decode_audio3 c room src size = ((len, frame_size, pcm), c') ->
     0 < frame_size -> Z.of_nat (length pcm) = frame_size) ->
  (forall fuel r,
     tsmf_ffmpeg_decode_within fuel m data extensions = Some r ->
     let got := (tsmf_ffmpeg_get_decoded_data r.2).1 in
     got.2 = wrap32 (Z.of_nat (length (buffer_bytes got.1))) /\
     (got.1 = None -> got.2 = 0)) /\
  (consumes_what_is_offered ->
   exists r,
     tsmf_ffmpeg_decode_within (S (length data)) m data extensions = Some r /\
     tsmf_ffmpeg_decode m data extensions = r).
Proof.
  intros Hvideo Haudio. split; [|apply decode_returns].
  intros fuel r Hr got.
  assert (Hsize : size_matches r.2).
  { revert Hr. unfold tsmf_ffmpeg_decode_within. simpl.
    destruct (media_type m =? AVMEDIA_TYPE_VIDEO).
    - intros [= <-]. unfold tsmf_ffmpeg_decode_video. simpl.
      destruct (avcodec_decode_video2 _ _ _) as [[len decoded] c].
      destruct (len <? 0); [reflexivity|].
      destruct (decoded =? 0); [reflexivity|].
      unfold size_matches. simpl. rewrite Hvideo.
      + now rewrite wrap32_idemp.
      + unfold wrap32. apply Z.mod_pos_bound. lia.
    - destruct (media_type m =? AVMEDIA_TYPE_AUDIO); [|now intros [= <-]].
      intros Hrun.
      destruct (decode_audio_returns _ _ _ _ _ Hrun) as (m1 & Hloop & _ & ->).
      assert (Hm1 : size_matches m1).
      { apply (decode_audio_loop_size Haudio _ _ _ _ _ _) in Hloop; [done|].
        unfold size_matches, audio_buffer_init. simpl.
        now destruct (decoded_size_max m =? 0). }
      simpl.
      destruct (Z.eqb_spec (decoded_size m1) 0) as [Hz | Hnz]; [|exact Hm1].
      unfold size_matches. simpl. exact Hz. }
  split; [exact Hsize|].
  unfold got, tsmf_ffmpeg_get_decoded_data. simpl. intros Hnone.
  unfold size_matches in Hsize. now rewrite Hnone in Hsize.
Qed.

(** X20. "Ensure enough space for decoding": when the buffer size is at
    least one maximal audio frame, the decoded size does not exceed it and
    doubling it stays within 31 bits, the room that the codec is offered
    after the check is at least one maximal audio frame, read as [uint32]
    or as [int]; the decoded size is kept and the buffer size never
    shrinks. *)
Theorem ensure_space_room (m : TSMFFFmpegDecoder C) :
  0 < AVCODEC_MAX_AUDIO_FRAME_SIZE <= decoded_size_max m ->
  0 <= decoded_size m <= decoded_size_max m ->
  decoded_size_max m + AVCODEC_MAX_AUDIO_FRAME_SIZE <= 2 ^ 31 ->
  let m' := ensure_space m in
  let room := decoded_size_max m' - decoded_size m' in
  AVCODEC_MAX_AUDIO_FRAME_SIZE <= room /\
  wrap32 room = room /\ to_int32 room = room /\
  decoded_size m' = decoded_size m /\
  decoded_size_max m <= decoded_size_max m' /\
  decoded_data m' = decoded_data m.
Proof.
  intros Hmax Hsize Hbound m' room. unfold room, m', ensure_space.
  assert (Hsmall : wrap32 (decoded_size_max m - decoded_size m) =
                   decoded_size_max m - decoded_size m).
  { unfold wrap32. apply Z.mod_small. lia. }
  rewrite Hsmall.
  destruct (Z.ltb_spec (decoded_size_max m - decoded_size m)
              AVCODEC_MAX_AUDIO_FRAME_SIZE) as [Hlt | Hge]; simpl.
  - assert (Hdouble : wrap32 (decoded_size_max m * 2) = decoded_size_max m * 2).
    { unfold wrap32. apply Z.mod_small. lia. }
    rewrite Hdouble.
    assert (Hroom : wrap32 (decoded_size_max m * 2 - decoded_size m) =
                    decoded_size_max m * 2 - decoded_size m).
    { unfold wrap32. apply Z.mod_small. lia. }
    split; [lia | split; [done | split; [|split; [done | split; [lia | done]]]]].
    unfold to_int32. rewrite Hroom.
    destruct (Z.ltb_spec (decoded_size_max m * 2 - decoded_size m) (2 ^ 31));
      lia.
  - split; [lia | split; [done | split; [|split; [done | split; [lia | done]]]]].
    unfold to_int32. rewrite Hsmall.
    destruct (Z.ltb_spec (decoded_size_max m - decoded_size m) (2 ^ 31)); lia.
Qed.

End DecoderSizes.

(** * The properties on concrete inputs *)

#[local] Existing Instance counting_sink.
#[local] Existing Instance header_constants.
#[local] Existing Instance accepting_channel.
#[local] Existing Instance toy_codec.

(** Proves [earliest] on a list of streams written out. *)
Ltac solve_earliest :=
  split; [reflexivity | split; [reflexivity |]];
  let j := fresh "j" in
  let Hj := fresh "Hj" in
  let Hy := fresh "Hy" in
  intros j ? ? Hj Hy;
  repeat (destruct j as [|j]; simpl in Hj;
          [injection Hj as <-; simpl in Hy;
           first [discriminate Hy | injection Hy as <-; simpl; lia] |]);
  discriminate Hj.

(** The audio stream is the earliest (start time 0 against 20) and the sink
    reports 10 queued samples: nothing is popped.  With 9 queued samples, or
    with no sink, the audio sample is popped. *)
Lemma C1_audio_lookahead_witness :
  let video := video_stream [mk_sample 1 20 100] 0 in
  let audio := audio_stream [mk_sample 2 0 50] 0 in
  let full := mk_presentation 10 (Some 10) [video; audio] in
  let low := mk_presentation 10 (Some 9) [video; audio] in
  let none := mk_presentation 10 None [video; audio] in
  earliest [video; audio] 1 audio (mk_sample 2 0 50) /\
  major_type audio = TSMF_MAJOR_TYPE_AUDIO /\
  tsmf_presentation_pop_sample full = (None, full) /\
  tsmf_presentation_pop_sample low =
    (Some (mk_sample 2 0 50),
     mk_presentation 50 (Some 9) [video; audio_stream [] 0]) /\
  tsmf_presentation_pop_sample none =
    (Some (mk_sample 2 0 50),
     mk_presentation 50 None [video; audio_stream [] 0]).
Proof.
  intros video audio full low none.
  assert (He : earliest [video; audio] 1 audio (mk_sample 2 0 50))
    by solve_earliest.
  assert (Hty : major_type audio = TSMF_MAJOR_TYPE_AUDIO) by reflexivity.
  split; [exact He | split; [exact Hty |]].
  split; [|split].
  - apply (proj1 (C1_audio_lookahead full 1%nat audio (mk_sample 2 0 50)
                    He Hty) 10 eq_refl).
    simpl. lia.
  - apply (proj2 (C1_audio_lookahead low 1%nat audio (mk_sample 2 0 50)
                    He Hty)).
    right. exists 9. split; [reflexivity | simpl; lia].
  - apply (proj2 (C1_audio_lookahead none 1%nat audio (mk_sample 2 0 50)
                    He Hty)).
    left. reflexivity.
Defined.

(** The video stream is the earliest and the audio stream is pending; the
    clock is at 10 and the frame starts at 20: nothing is popped.  Once the
    audio stream is ended, the frame is popped. *)
Lemma C2_non_audio_selection_witness :
  let video := video_stream [mk_sample 1 20 100] 0 in
  let audio := audio_stream [] 0 in
  let p := mk_presentation 10 (Some 9) [video; audio] in
  earliest [video; audio] 0 video (mk_sample 1 20 100) /\
  major_type video <> TSMF_MAJOR_TYPE_AUDIO /\
  tsmf_presentation_pop_sample p = (None, p) /\
  tsmf_presentation_pop_sample (tsmf_stream_end p 1) =
    (Some (mk_sample 1 20 100),
     after_pop (tsmf_stream_end p 1) 0 video (mk_sample 1 20 100)).
Proof.
  intros video audio p.
  assert (He : earliest [video; audio] 0 video (mk_sample 1 20 100))
    by solve_earliest.
  assert (Hty : major_type video <> TSMF_MAJOR_TYPE_AUDIO) by (simpl; lia).
  destruct (C2_non_audio_selection p 0%nat video (mk_sample 1 20 100) He Hty)
    as (_ & Hwait & Hend).
  split; [exact He | split; [exact Hty | split]].
  - apply Hwait. intros [Hno | [Hzero | Hreached]].
    + apply Hno. exists audio. split; [|split; reflexivity].
      apply list_elem_of_further, list_elem_of_here.
    + simpl in Hzero. lia.
    + simpl in Hreached. lia.
  - apply (Hend 1%nat audio eq_refl).
    + split; reflexivity.
    + intros k u Hk Hu [Hq _].
      destruct k as [|[|k]]; simpl in Hu; [|lia|discriminate].
      injection Hu as <-. discriminate Hq.
Defined.

(** Three scheduler invocations on a video and an audio stream: the clock
    goes from 0 to 100 and stays there while the earlier audio samples are
    popped. *)
Example playback_time_run :
  let p :=
    mk_presentation 0 None
      [video_stream [mk_sample 1 0 100] 0;
       audio_stream [mk_sample 2 0 50; mk_sample 3 50 100] 0] in
  map (fun n => playback_time (run (repeat OpPop n) p)) [0; 1; 2; 3]%nat =
  [0; 100; 100; 100].
Proof. reflexivity. Qed.

(** The two samples popped above, played: the video frame is pushed to the
    channel and acknowledged with size 0 (the buffer went with the event);
    without a sink the audio sample is only acknowledged. *)
Example playback_effects :
  let video := video_stream [] 0 in
  let audio := audio_stream [] 0 in
  let p := mk_presentation 100 None [video; audio] in
  (tsmf_sample_playback p video (mk_sample 1 0 100)).2 =
    [EvPush 7 (RD_VIDEO_FRAME_EVENT (Some [x01]) 1 1 2 2 10 20 320 240);
     EvAck 7 1 100 0] /\
  (tsmf_sample_playback p audio (mk_sample 2 0 50)).2 = [EvAck 7 2 50 1].
Proof. split; reflexivity. Qed.

(** A registry that holds the presentation [example_guid], which has the
    stream 1: both creations are rejected. *)
Lemma C4_duplicate_id_rejected_witness :
  let p := mk_presentation 0 None [video_stream [mk_sample 1 0 100] 0] in
  (exists q, q ∈ [p] /\
             mem_equal (presentation_id q) example_guid GUID_SIZE = true) /\
  (exists s, s ∈ stream_list p /\ stream_id s = 1) /\
  tsmf_presentation_new [p] example_guid 7 = (None, [p]) /\
  tsmf_stream_new p 1 = (None, p).
Proof.
  intros p.
  assert (Hp : exists q, q ∈ [p] /\
             mem_equal (presentation_id q) example_guid GUID_SIZE = true).
  { exists p. split; [apply list_elem_of_here | reflexivity]. }
  assert (Hs : exists s, s ∈ stream_list p /\ stream_id s = 1).
  { exists (video_stream [mk_sample 1 0 100] 0).
    split; [apply list_elem_of_here | reflexivity]. }
  split; [exact Hp | split; [exact Hs |]].
  destruct (C4_duplicate_id_rejected [p] example_guid 7 p 1) as [Hnew Hstream].
  split; [apply Hnew, Hp | apply Hstream, Hs].
Defined.

(** A fresh id is accepted and appended. *)
Example presentation_new_fresh :
  (tsmf_presentation_new
     (@nil (TSMF_PRESENTATION Z (TSMFFFmpegDecoder unit))) example_guid 7).1
  = Some 0%nat.
Proof. reflexivity. Qed.

(** C5, counterexample.  The decoder of [mute_stream] decodes the unit (it
    returns 0 and holds the 6 bytes of the picture) but has no
    [GetDecodedData]: the sample that is appended carries no payload. *)
Lemma C5_counterexample_mute_decoder :
  exists m,
    decoder mute_stream = Some mute_decoder /\
    Decode (iface mute_decoder) (mdecoder mute_decoder) [x01] 0 = (0, m) /\
    decoded_data m = Some (repeat x00 6) /\
    sample_queue (tsmf_stream_push_sample mute_stream 7 1 0 50 50 0 [x01]) =
    [Build_TSMF_SAMPLE 1 0 50 50 0 None 7].
Proof.
  eexists. split; [reflexivity | split; [reflexivity | split; reflexivity]].
Qed.

(** The three cases of a push on concrete streams: no decoder, a unit the
    decoder rejects, a unit it decodes. *)
Lemma C5_push_sample_witness :
  let bare : TSMF_STREAM (TSMFFFmpegDecoder unit) := stream_init 3 in
  let video := video_stream [mk_sample 1 0 100] 0 in
  tsmf_stream_push_sample bare 7 2 100 200 100 0 [x01] = bare /\
  sample_queue (tsmf_stream_push_sample video 7 2 100 200 100 0 []) =
    [mk_sample 1 0 100] /\
  sample_queue (tsmf_stream_push_sample video 7 2 100 200 100 0 [x01]) =
    [mk_sample 1 0 100;
     Build_TSMF_SAMPLE 2 100 200 100 6 (Some (repeat x00 6)) 7] /\
  sample_queue (tsmf_stream_push_sample mute_stream 7 2 100 200 100 0 [x01]) =
    [Build_TSMF_SAMPLE 2 100 200 100 0 None 7].
Proof.
  intros bare video. split; [|split; [|split]].
  - apply (proj1 (C5_push_sample bare 7 2 100 200 100 0 [x01])). reflexivity.
  - destruct (C5_push_sample video 7 2 100 200 100 0 []) as (_ & Hfail & _).
    eapply Hfail; [reflexivity | reflexivity | lia].
  - destruct (C5_push_sample video 7 2 100 200 100 0 [x01]) as (_ & _ & Hok).
    edestruct Hok as [Hget _]; [reflexivity | reflexivity |].
    apply (Hget _ eq_refl).
  - destruct (C5_push_sample mute_stream 7 2 100 200 100 0 [x01])
      as (_ & _ & Hok).
    edestruct Hok as [_ Hnone]; [reflexivity | reflexivity |].
    apply Hnone. reflexivity.
Defined.

(** Three audio units pushed on an empty queue and popped again. *)
Lemma C6_queue_fifo_witness :
  let s := audio_stream [] 0 in
  let l := [mk_push 1 0 50 [x01]; mk_push 2 50 100 [x02];
            mk_push 3 100 150 [x03]] in
  all_succeed s l = true /\
  exists xs : list TSMF_SAMPLE,
    Forall2 sample_of_push l xs /\
    sample_queue (push_all s l) = sample_queue s ++ xs /\
    (pop_n (length (sample_queue s ++ xs)) (push_all s l)).1 =
      map Some (sample_queue s ++ xs) /\
    (tsmf_stream_pop_sample
       (pop_n (length (sample_queue s ++ xs)) (push_all s l)).2).1 = None /\
    (sample_queue s = [] ->
     (pop_n (length l) (push_all s l)).1 = map Some xs /\
     map start_time xs = map pa_start_time l /\
     (nondecreasing (map pa_start_time l) ->
      nondecreasing (map start_time xs))).
Proof.
  intros s l. split; [reflexivity|].
  apply (C6_queue_fifo s l). reflexivity.
Defined.

Example fifo_pops :
  let s := audio_stream [] 0 in
  let l := [mk_push 1 0 50 [x01]; mk_push 2 50 100 [x02];
            mk_push 3 100 150 [x03]] in
  (pop_n 4 (push_all s l)).1 =
  [Some (Build_TSMF_SAMPLE 1 0 50 50 2 (Some [x01; x00]) 7);
   Some (Build_TSMF_SAMPLE 2 50 100 50 2 (Some [x02; x00]) 7);
   Some (Build_TSMF_SAMPLE 3 100 150 50 2 (Some [x03; x00]) 7);
   None].
Proof. reflexivity. Qed.

(** The toy codec consumes one byte of a unit, and nothing of an empty
    one. *)
Lemma toy_consumes : @consumes_what_is_offered unit toy_codec.
Proof.
  intros c room data size. simpl.
  destruct (Z.leb_spec size 0) as [Hle | Hgt]; simpl; [lia|].
  destruct data as [|b data]; simpl; [lia|].
  destruct (Byte.eqb b xff); simpl; lia.
Qed.

(** C7, counterexample.  The audio decoder is given an empty unit: [Decode]
    returns 0 and the [GetDecodedData] that follows returns NULL with size 0.
    The loop is not entered, so that no turn of it needs to be followed.
    The same happens when the codec fails on the first byte, in the first
    turn of the loop. *)
Lemma C7_counterexample_empty_audio :
  let got (r : Z * TSMFFFmpegDecoder unit) :=
    (r.1, (tsmf_ffmpeg_get_decoded_data r.2).1) in
  got <$> tsmf_ffmpeg_decode_within 0 (toy_ffmpeg AVMEDIA_TYPE_AUDIO) [] 0
    = Some (0, (None, 0)) /\
  got <$> tsmf_ffmpeg_decode_within 1 (toy_ffmpeg AVMEDIA_TYPE_AUDIO)
            [xff; x01] 0
    = Some (0, (None, 0)) /\
  got (tsmf_ffmpeg_decode (toy_ffmpeg AVMEDIA_TYPE_AUDIO) [] 0)
    = (0, (None, 0)) /\
  got (tsmf_ffmpeg_decode (toy_ffmpeg AVMEDIA_TYPE_AUDIO) [xff; x01] 0)
    = (0, (None, 0)).
Proof. repeat split; reflexivity. Qed.

(** A video unit that decodes, an audio unit of two bytes, an audio unit
    whose first byte is an error, and an audio unit of one byte. *)
Lemma C7_decode_then_get_witness :
  let got (r : Z * TSMFFFmpegDecoder unit) :=
    (tsmf_ffmpeg_get_decoded_data r.2).1 in
  let video := tsmf_ffmpeg_decode (toy_ffmpeg AVMEDIA_TYPE_VIDEO) [x01] 0 in
  let audio := tsmf_ffmpeg_decode (toy_ffmpeg AVMEDIA_TYPE_AUDIO) [x01; x02] 0 in
  (tsmf_ffmpeg_decode_within 0 (toy_ffmpeg AVMEDIA_TYPE_VIDEO) [x01] 0
     = Some video /\
   video.1 = 0 /\ exists buf, got video = (Some buf, 6)) /\
  (tsmf_ffmpeg_decode_within 3 (toy_ffmpeg AVMEDIA_TYPE_AUDIO) [x01; x02] 0
     = Some audio /\
   audio.1 = 0 /\ got audio = (Some [x01; x00; x02; x00], 4)) /\
  (exists r,
     tsmf_ffmpeg_decode_within 1 (toy_ffmpeg AVMEDIA_TYPE_AUDIO) [xff; x01] 0
       = Some r /\
     r.1 = 0 /\ got r = (None, 0)) /\
  (exists r,
     tsmf_ffmpeg_decode_within 1 (toy_ffmpeg AVMEDIA_TYPE_AUDIO) [x05] 0
       = Some r /\
     r.1 = 0 /\ got r = (Some [x05; x00], 2)).
Proof.
  intros got video audio.
  destruct (C7_decode_then_get (toy_ffmpeg AVMEDIA_TYPE_VIDEO) [x01] 0)
    as [Hvideo _].
  destruct (Hvideo eq_refl 0%nat) as (r & Hr & Hdec & Hbuf).
  destruct (C7_decode_then_get (toy_ffmpeg AVMEDIA_TYPE_AUDIO) [x01; x02] 0)
    as [_ Haudio].
  destruct (Haudio eq_refl) as (Hret & _ & _ & Hends).
  destruct (Hends toy_consumes) as (ra & Hra & Hdeca).
  destruct (C7_decode_then_get (toy_ffmpeg AVMEDIA_TYPE_AUDIO) [xff; x01] 0)
    as [_ Hfails].
  destruct (Hfails eq_refl) as (_ & Hnothing & _ & _).
  destruct (C7_decode_then_get (toy_ffmpeg AVMEDIA_TYPE_AUDIO) [x05] 0)
    as [_ Hbyte].
  destruct (Hbyte eq_refl) as (_ & _ & Hone & _).
  split; [|split; [|split]].
  - fold video in Hdec. subst r.
    split; [exact Hr | split; [reflexivity | exact (Hbuf eq_refl)]].
  - fold audio in Hdeca. subst ra.
    split; [exact Hra | split; [exact (proj1 (Hret _ _ Hra)) | reflexivity]].
  - apply (fun H => Hnothing H 1%nat); [|lia].
    right. left. vm_compute. discriminate.
  - apply (fun Hlen Hframe => Hone ltac:(discriminate) Hlen Hframe eq_refl 1%nat);
      [reflexivity | reflexivity | lia].
Defined.

(** A codec that reports more bytes than it was offered: [src_size] wraps
    around to [2^32 - 1], the loop takes a second turn, in which the buffer
    is doubled and the codec is offered -1 bytes, and ends there.  One turn
    is not all of the loop. *)
Example audio_loop_wraps :
  let m : TSMFFFmpegDecoder Z :=
    Build_TSMFFFmpegDecoder AVMEDIA_TYPE_AUDIO 0 1 None 0 0 in
  let calls_and_sizes (r : Z * TSMFFFmpegDecoder Z) :=
    (r.1, codec_context r.2, decoded_size r.2, decoded_size_max r.2) in
  calls_and_sizes <$> @tsmf_ffmpeg_decode_within Z greedy_codec 2 m [x01] 0
    = Some (0, 2, 2, 384000) /\
  @tsmf_ffmpeg_decode_within Z greedy_codec 1 m [x01] 0 = None /\
  wrap32 (1 - 2) = 2 ^ 32 - 1 /\ to_int32 (2 ^ 32 - 1) = -1.
Proof. repeat split; reflexivity. Qed.

(** A flush of a presentation with queued samples, an ended stream and a sink
    that holds 3 samples. *)
Example flush_twice :
  let p :=
    set_eos
      (mk_presentation 100 (Some 3)
         [video_stream [mk_sample 1 0 100] 1;
          audio_stream [mk_sample 2 0 50; mk_sample 3 50 100] 0]) 1 in
  let p1 := tsmf_presentation_flush p in
  let p2 := tsmf_presentation_flush p1 in
  map sample_queue (stream_list p1) = [[]; []] /\
  map stream_eos (stream_list p1) = [0; 0] /\
  (eos p, eos p1, audio p1) = (1, 0, Some 0) /\
  p2 = p1.
Proof. repeat split; reflexivity. Qed.

(** C9, counterexample.  Nothing was delivered yet, so the last delivered
    region (all 0) differs from the target region 320x240 at (10, 20), and
    the sample has a payload: only the video frame is emitted, no redraw. *)
Lemma C9_counterexample_first_frame :
  let s := video_stream [] 0 in
  let p := mk_presentation 0 None [s] in
  region_differs p /\
  data (mk_sample 1 0 100) = Some [x01] /\
  (tsmf_sample_playback_video p s (mk_sample 1 0 100)).2 =
  [EvPush 7 (RD_VIDEO_FRAME_EVENT (Some [x01]) 1 1 2 2 10 20 320 240)] /\
  existsb is_redraw (tsmf_sample_playback_video p s (mk_sample 1 0 100)).2
  = false.
Proof.
  intros s p. split; [left; simpl; lia | repeat split; reflexivity].
Qed.

(** A frame was delivered at 320x240 at (10, 20) and the target moved to
    (30, 40): the redraw of the old region comes first, then the frame. *)
Lemma C9_video_dispatch_witness :
  let s := video_stream [] 0 in
  let p :=
    tsmf_presentation_set_geometry_info
      (tsmf_sample_playback_video (mk_presentation 0 None [s]) s
         (mk_sample 1 0 100)).1.1
      30 40 320 240 in
  let r := tsmf_sample_playback_video p s (mk_sample 2 100 200) in
  (region_differs p /\ last_width p <> 0 /\ last_height p <> 0) /\
  r.2 =
  [EvPush 7 (RD_REDRAW_EVENT 10 20 320 240);
   EvPush 7 (RD_VIDEO_FRAME_EVENT (Some [x01]) 1 1 2 2 30 40 320 240)] /\
  existsb is_redraw r.2 = true /\
  (last_x r.1.1, last_y r.1.1, last_width r.1.1, last_height r.1.1) =
  (30, 40, 320, 240) /\
  data r.1.2 = None /\ data_size r.1.2 = 0 /\
  tsmf_sample_playback_video p s (set_data (mk_sample 3 200 300) None 0) =
  (p, set_data (mk_sample 3 200 300) None 0, []).
Proof.
  intros s p r.
  assert (Hstale : region_differs p /\ last_width p <> 0 /\ last_height p <> 0).
  { split; [left; simpl; lia | split; simpl; lia]. }
  split; [exact Hstale|].
  pose proof (C9_video_dispatch p s (mk_sample 2 100 200)) as Hplay.
  fold r in Hplay. destruct r as [[p' x'] effects].
  destruct Hplay as [Hpayload _].
  destruct (Hpayload [x01] eq_refl)
    as (Hredraw & _ & Hiff & Hlast & _ & Hdata & Hsize).
  split; [exact (Hredraw Hstale) | split; [apply Hiff, Hstale |]].
  split; [exact Hlast | split; [exact Hdata | split; [exact Hsize |]]].
  pose proof (C9_video_dispatch p s (set_data (mk_sample 3 200 300) None 0))
    as Hnone.
  destruct (tsmf_sample_playback_video p s _) as [[q y] e].
  destruct Hnone as [_ Hnone]. destruct (Hnone eq_refl) as (-> & -> & ->).
  reflexivity.
Defined.

(** A stream ends, which marks the stream and the presentation; the flush
    clears both marks. *)
Lemma C10_flush_clears_presentation_eos_witness :
  let p :=
    mk_presentation 100 (Some 3)
      [video_stream [mk_sample 1 0 100] 0; audio_stream [] 0] in
  stream_list p !! 1%nat = Some (audio_stream [] 0) /\
  eos (tsmf_stream_end p 1) = 1 /\
  stream_eos <$> stream_list (tsmf_stream_end p 1) !! 1%nat = Some 1 /\
  eos (tsmf_presentation_flush (tsmf_stream_end p 1)) = 0 /\
  Forall (fun s => stream_eos s = 0)
    (stream_list (tsmf_presentation_flush (tsmf_stream_end p 1))).
Proof.
  intros p. split; [reflexivity|].
  destruct (C10_flush_clears_presentation_eos p) as (_ & _ & Hend).
  exact (Hend 1%nat (audio_stream [] 0) eq_refl).
Defined.

(** * Further properties on concrete inputs *)

#[local] Existing Instance toy_loader.

(** An audio sample played without a sink keeps its buffer: its size is
    acknowledged, and nothing else is sent. *)
Lemma playback_acknowledges_once_witness :
  let p := mk_presentation 0 None [audio_stream [] 0] in
  let x := mk_sample 3 0 50 in
  (tsmf_sample_playback p (audio_stream [] 0) x).2 =
  [EvAck 7 3 50 1].
Proof.
  intros p x.
  destruct (playback_acknowledges_once p (audio_stream [] 0) x)
    as (dispatch & size & Heffects & _ & _ & _ & _ & Hkept).
  destruct Hkept as (Hnone & Hsize & _);
    [discriminate | right; reflexivity |].
  rewrite Heffects, Hnone, Hsize. reflexivity.
Defined.

(** At end of stream without sink all five samples are played, in the
    order of their start times, the video frame first among equals. *)
Lemma playback_remaining_ordered_witness :
  (forall j t, stream_list ended_presentation !! j = Some t ->
               queue_ordered t) /\
  exists p' played,
    playback_remaining 6 ended_presentation = Some (p', played) /\
    StronglySorted Z.le (map (fun e => start_time e.1) played) /\
    map fst played ≡ₚ all_queued ended_presentation /\
    all_queued p' = [].
Proof.
  assert (Hord : forall j t, stream_list ended_presentation !! j = Some t ->
                             queue_ordered t).
  { intros j t Hj.
    destruct j as [|[|j]]; simpl in Hj; [| |discriminate Hj];
      injection Hj as <-; unfold queue_ordered; simpl;
      repeat constructor; lia. }
  split; [exact Hord|].
  destruct (playback_remaining_ordered ended_presentation Hord)
    as (p' & played & Hrun & Hsorted & _ & _ & Hall).
  exists p', played. split; [exact Hrun | split; [exact Hsorted|]].
  destruct Hall as [Hnil Hperm]; [reflexivity | | split; [exact Hperm | exact Hnil]].
  intros j t Hj.
  destruct j as [|[|j]]; simpl in Hj; [| |discriminate Hj];
    injection Hj as <-; discriminate.
Defined.

Example playback_remaining_order :
  option_map (fun r => map (fun e => (sample_id e.1, start_time e.1)) r.2)
    (playback_remaining 6 ended_presentation) =
  Some [(1, 0); (3, 0); (4, 50); (2, 100); (5, 100)].
Proof. reflexivity. Qed.

Lemma playback_remaining_plays_witness :
  exists p' played,
    playback_remaining 6 ended_presentation = Some (p', played) /\
    length played = 5%nat /\
    forall j t, stream_list p' !! j = Some t -> sample_queue t = [].
Proof.
  destruct (playback_remaining_plays ended_presentation)
    as (p' & played & Hrun & _ & _ & Hall).
  exists p', played. split; [exact Hrun|].
  apply Hall; [reflexivity|].
  intros j t Hj.
  destruct j as [|[|j]]; simpl in Hj; [| |discriminate Hj];
    injection Hj as <-; simpl; lia.
Defined.

(** A second presentation is created beside the first one. *)
Lemma presentation_new_registers_witness :
  let p := mk_presentation 0 None [video_stream [] 0] in
  tsmf_presentation_find_by_id [p] other_guid = None /\
  tsmf_presentation_new [p] other_guid 8 =
    (Some 1%nat, [p; presentation_init other_guid 8]) /\
  tsmf_presentation_find_by_id [p; presentation_init other_guid 8] other_guid
    = Some 1%nat /\
  tsmf_presentation_find_by_id [p; presentation_init other_guid 8] example_guid
    = Some 0%nat.
Proof.
  intros p.
  assert (Hnone : tsmf_presentation_find_by_id [p] other_guid = None)
    by reflexivity.
  destruct (presentation_new_registers [p] other_guid 8 Hnone)
    as (Hnew & Hfound & Hkept & _).
  split; [exact Hnone | split; [exact Hnew | split; [exact Hfound|]]].
  apply Hkept. reflexivity.
Defined.

(** A registry built by two creations from the empty one. *)
Lemma presentation_new_unique_witness :
  let empty : list (TSMF_PRESENTATION Z (TSMFFFmpegDecoder unit)) := [] in
  let one := (tsmf_presentation_new empty example_guid 7).2 in
  let two := (tsmf_presentation_new one other_guid 8).2 in
  registry_unique empty /\ registry_unique two /\ length two = 2%nat.
Proof.
  intros empty one two.
  assert (Hempty : registry_unique empty).
  { intros i j p q Hi. discriminate Hi. }
  split; [exact Hempty | split; [|reflexivity]].
  apply presentation_new_unique. apply presentation_new_unique. exact Hempty.
Defined.

(** An audio stream is created beside the video stream 1, and freed
    again. *)
Lemma stream_new_registers_witness :
  let p := mk_presentation 0 None [video_stream [mk_sample 1 0 100] 0] in
  tsmf_stream_find_by_id p 2 = None /\
  (tsmf_stream_new p 2).1 = Some 1%nat /\
  stream_by_id (tsmf_stream_new p 2).2 2 = Some (stream_init 2) /\
  tsmf_stream_find_by_id (tsmf_stream_new p 2).2 1 = Some 0%nat /\
  NoDup (stream_ids (tsmf_stream_new p 2).2).
Proof.
  intros p.
  assert (Hnone : tsmf_stream_find_by_id p 2 = None) by reflexivity.
  destruct (stream_new_registers p 2) as (Hfresh & Hnodup & _).
  destruct (Hfresh Hnone) as (Hnew & _ & Hby & Hkept).
  split; [exact Hnone|]. rewrite Hnew. simpl.
  split; [reflexivity | split; [exact Hby | split]].
  - apply Hkept. reflexivity.
  - rewrite Hnew in Hnodup. apply Hnodup.
    unfold stream_ids. simpl. apply NoDup_singleton.
Defined.

Lemma stream_free_removes_witness :
  let video := video_stream [mk_sample 1 0 100] 0 in
  let audio := audio_stream [mk_sample 2 0 50] 0 in
  let p := mk_presentation 0 None [video; audio] in
  NoDup (stream_ids p) /\
  tsmf_stream_free (tsmf_stream_new p 3).2 2 = p /\
  tsmf_stream_find_by_id (tsmf_stream_free p 0) 1 = None /\
  stream_by_id (tsmf_stream_free p 0) 2 = stream_by_id p 2 /\
  NoDup (stream_ids (tsmf_stream_free p 0)).
Proof.
  intros video audio p.
  assert (Hnodup : NoDup (stream_ids p)).
  { unfold stream_ids. simpl. apply NoDup_cons. split.
    - intros Hin. apply list_elem_of_singleton in Hin. discriminate Hin.
    - apply NoDup_singleton. }
  destruct (stream_free_removes p) as [Hround Hfree].
  destruct (Hfree 0%nat video Hnodup eq_refl) as (Hgone & _ & Hothers & Hnodup').
  split; [exact Hnodup | split; [|split; [exact Hgone | split; [|exact Hnodup']]]].
  - apply (Hround 3). reflexivity.
  - apply Hothers. simpl. lia.
Defined.

(** Two frames with the window at 320x240 at (10, 20): the second comes
    without redraw; when the window moved to (30, 40), it comes after the
    redraw of the old place. *)
Lemma video_frames_and_geometry_witness :
  let s := video_stream [] 0 in
  let p := mk_presentation 0 None [s] in
  let p1 := (tsmf_sample_playback_video p s (mk_sample 1 0 100)).1.1 in
  let moved := tsmf_presentation_set_geometry_info p1 30 40 320 240 in
  data (mk_sample 1 0 100) <> None /\
  (tsmf_sample_playback_video p1 s (mk_sample 2 100 200)).2 =
    [EvPush 7 (RD_VIDEO_FRAME_EVENT (Some [x01]) 1 1 2 2 10 20 320 240)] /\
  exists rest,
    (tsmf_sample_playback_video moved s (mk_sample 2 100 200)).2 =
      EvPush 7 (RD_REDRAW_EVENT 10 20 320 240) :: rest /\
    existsb is_redraw rest = false.
Proof.
  intros s p p1 moved.
  assert (Hdata : forall id a b, data (mk_sample id a b) <> None)
    by (intros; discriminate).
  destruct (video_frames_and_geometry p s s (mk_sample 1 0 100)
              (mk_sample 2 100 200) 30 40 320 240 (Hdata _ _ _) (Hdata _ _ _))
    as (Hsame & Hmoved & _).
  split; [apply Hdata | split; [exact Hsame|]].
  destruct Hmoved as (rest & Hrest & Hno & _).
  - simpl. intros Heq. discriminate Heq.
  - simpl. lia.
  - simpl. lia.
  - exists rest. split; [exact Hrest | exact Hno].
Defined.

(** An audio format with 0 bits per sample on the second stream. *)
Lemma stream_set_format_records_witness :
  let p :=
    set_audio_format
      (mk_presentation 0 None [video_stream [] 0; audio_stream [] 0]) 0 0 0 in
  let p' := tsmf_stream_set_format p 1 [] [x02; x01; x00] in
  stream_list p !! 1%nat = Some (audio_stream [] 0) /\
  (sample_rate p', channels p', bits_per_sample p') = (44100, 2, 16) /\
  bits_per_sample p' <> 0.
Proof.
  intros p p'.
  destruct (stream_set_format_records p 1 (audio_stream [] 0) []
              [x02; x01; x00] eq_refl) as (Haudio & _).
  destruct Haudio as (Hrate & Hchannels & Hbits & Hdefault & _);
    [reflexivity | simpl; lia |].
  split; [reflexivity | split; [|exact Hbits]].
  fold p' in Hrate, Hchannels, Hdefault.
  rewrite Hrate, Hchannels, (Hdefault eq_refl). reflexivity.
Defined.

(** A video format of sub type 0, for which no decoder is loaded: the three
    frames pushed afterwards are dropped. *)
Lemma stream_set_format_unsupported_witness :
  let p := mk_presentation 0 None [video_stream [] 0] in
  let p' := tsmf_stream_set_format p 0 [] [x01; x00; x00] in
  let l := [mk_push 1 0 100 [x01]; mk_push 2 100 200 [x01];
            mk_push 3 200 300 [x01]] in
  tsmf_load_decoder [] (tsmf_codec_parse_media_type [x01; x00; x00]) = None /\
  run (map (OpPush 0) l) p' = p' /\
  sample_queue <$> stream_list p' = [[]].
Proof.
  intros p p' l. split; [reflexivity | split; [|reflexivity]].
  apply (stream_set_format_unsupported p 0 [] [x01; x00; x00] l). reflexivity.
Defined.

(** The video decoder holds the picture of a unit that was not taken; the
    next unit is empty and fails: nothing is left to take. *)
Lemma decode_failure_leaves_nothing_witness :
  let m := (tsmf_ffmpeg_decode (toy_ffmpeg AVMEDIA_TYPE_VIDEO) [x01] 0).2 in
  decoded_data m = Some (repeat x00 6) /\
  (tsmf_ffmpeg_decode m [] 0).1 <> 0 /\
  (tsmf_ffmpeg_get_decoded_data (tsmf_ffmpeg_decode m [] 0).2).1 = (None, 0).
Proof.
  intros m.
  assert (Hret : (tsmf_ffmpeg_decode m [] 0).1 <> 0) by (simpl; lia).
  split; [reflexivity | split; [exact Hret|]].
  apply (decode_failure_leaves_nothing m [] 0 Hret).
Defined.

Lemma push_leaves_decoder_empty_witness :
  let s := video_stream [] 0 in
  decoder s = Some (ffmpeg_decoder (toy_ffmpeg AVMEDIA_TYPE_VIDEO)) /\
  exists m',
    decoder (push s (mk_push 1 0 100 [x01])) = Some (ffmpeg_decoder m') /\
    decoded_data m' = None /\ decoded_size m' = 0.
Proof.
  intros s. split; [reflexivity|].
  destruct (push_leaves_decoder_empty s (toy_ffmpeg AVMEDIA_TYPE_VIDEO)
              (mk_push 1 0 100 [x01]) eq_refl)
    as (m' & Hdec & Hdata & Hsize & _).
  exists m'. split; [exact Hdec | split; [exact Hdata | exact Hsize]].
Defined.

(** The toy codec writes what it reports. *)
Lemma decoded_size_is_buffer_length_witness :
  exists r,
    tsmf_ffmpeg_decode_within 4 (toy_ffmpeg AVMEDIA_TYPE_AUDIO)
      [x01; x02; x03] 0 = Some r /\
    tsmf_ffmpeg_decode (toy_ffmpeg AVMEDIA_TYPE_AUDIO) [x01; x02; x03] 0 = r /\
    let got := (tsmf_ffmpeg_get_decoded_data r.2).1 in
    got.2 = wrap32 (Z.of_nat (length (buffer_bytes got.1))) /\ got.2 = 6.
Proof.
  destruct (decoded_size_is_buffer_length (toy_ffmpeg AVMEDIA_TYPE_AUDIO)
              [x01; x02; x03] 0) as [Hsize Hends].
  - intros c size Hsize. simpl. rewrite repeat_length. lia.
  - intros c room src size len frame_size pcm c' Hcall Hframe. simpl in Hcall.
    destruct (size <=? 0); [injection Hcall as _ <- _ _; lia|].
    destruct src as [|b src]; [injection Hcall as _ <- _ _; lia|].
    destruct (Byte.eqb b xff); injection Hcall as _ <- <- _;
      [lia | reflexivity].
  - destruct (Hends toy_consumes) as (r & Hr & Hdec).
    exists r. split; [exact Hr | split; [exact Hdec|]].
    split; [exact (proj1 (Hsize _ _ Hr))|].
    subst r. reflexivity.
Defined.

(** A buffer of one maximal frame with 100000 bytes decoded is doubled. *)
Lemma ensure_space_room_witness :
  let m : TSMFFFmpegDecoder unit :=
    Build_TSMFFFmpegDecoder AVMEDIA_TYPE_AUDIO tt 1 (Some []) 100000 192000 in
  decoded_size_max (ensure_space m) - decoded_size (ensure_space m) = 284000 /\
  AVCODEC_MAX_AUDIO_FRAME_SIZE <=
  decoded_size_max (ensure_space m) - decoded_size (ensure_space m).
Proof.
  intros m. split; [reflexivity|].
  apply (ensure_space_room m); simpl; lia.
Defined.
